(** * PDFEngine: the layout-and-render engine ([src/engine], class [PDFEngine])

    A shallow embedding of the [PDFEngine] class: the dispatcher
    [_renderElement], the element renderers, the render session [_render]
    and the page-numbering pass [_addPageNumbers], followed by the
    properties of the engine that the specification states.

    Conventions of the embedding.

    - JavaScript numbers are exact rationals ([Q]); rounding of IEEE doubles
      is not modelled.  Where the source computes with an [undefined] value
      (so that JavaScript would produce [NaN]) or hands one to PDFKit, the
      run ends in the outcome [Unmodelled]: what PDFKit does with such a
      value is not part of this development.
    - Element attributes are typed, optional fields; [None] is an absent
      (undefined) attribute.  The JavaScript operators [||] and [??] are
      written out by [orQ], [orS], [nullishQ] and friends.
    - The PDFKit document [doc] is the record [Doc]: page geometry, the
      cursor, the current font state, the buffered page count and the list
      [out] of what the engine had PDFKit draw, oldest first, each entry
      tagged with the index of the page on which it begins.  Font metrics,
      line breaking, image sizes and [Math.random] belong to the outside
      world and are fields of [Backend].
    - [doc.text] follows PDFKit's line wrapper: when no line fits between
      the cursor and the bottom margin the call first starts a new page,
      and while it lays its lines it starts another whenever the next line
      would not fit.  A page that PDFKit starts in this way is appended
      after the last page, becomes the current page, and is counted in
      [page_count]; it is not an entry of [out], which lists the calls of
      the engine.  A call without a positive wrapping width lays one
      unwrapped run and moves the cursor to the right instead.  What a
      [continued] run hands over to the next text call is not modelled. *)

From Stdlib Require Import QArith Qround String Ascii List Bool Arith Lia.
From Stdlib Require Import DecimalString ZArith Lqa.
Import ListNotations.

Local Open Scope string_scope.
Local Open Scope list_scope.
Local Open Scope Q_scope.

(* ------------------------------------------------------------------ *)
(** ** JavaScript values                                                *)
(* ------------------------------------------------------------------ *)

Module Js.

(** Truthiness of an optional string: [undefined] and [""] are falsy. *)
Definition truthyS (o : option string) : bool :=
  match o with
  | Some s => negb (String.eqb s EmptyString)
  | None => false
  end.

(** Truthiness of an optional number: [undefined] and [0] are falsy. *)
Definition truthyQ (o : option Q) : bool :=
  match o with
  | Some q => negb (Qeq_bool q 0)
  | None => false
  end.

Definition truthyB (o : option bool) : bool :=
  match o with
  | Some b => b
  | None => false
  end.

(** [o || d] on strings and on numbers. *)
Definition orS (o : option string) (d : string) : string :=
  match o with
  | Some s => if String.eqb s EmptyString then d else s
  | None => d
  end.

Definition orQ (o : option Q) (d : Q) : Q :=
  match o with
  | Some q => if Qeq_bool q 0 then d else q
  | None => d
  end.

(** [o ?? d]: only [undefined] (and [null]) select the default. *)
Definition nullishQ (o : option Q) (d : Q) : Q :=
  match o with
  | Some q => q
  | None => d
  end.

Definition nullishB (o : option bool) (d : bool) : bool :=
  match o with
  | Some b => b
  | None => d
  end.

(** [a > b] on numbers. *)
Definition gtb (a b : Q) : bool := negb (Qle_bool a b).

(** [String(n)] for a non-negative integer. *)
Definition natToString (n : nat) : string :=
  NilEmpty.string_of_uint (Nat.to_uint n).

(** The number [n] of an array length or a loop index. *)
Definition ofNat (n : nat) : Q := inject_Z (Z.of_nat n).

End Js.

(* ------------------------------------------------------------------ *)
(** ** Outcomes of a render step                                        *)
(* ------------------------------------------------------------------ *)

Inductive JsError : Type :=
| TypeError (msg : string)      (* property read on null or undefined *)
| AssetError (src : string).    (* an image that cannot be opened *)

Inductive Outcome (A : Type) : Type :=
| Ok (a : A)
| Throw (e : JsError)
| Unmodelled.

Arguments Ok {A} a.
Arguments Throw {A} e.
Arguments Unmodelled {A}.

Definition bind {A B : Type} (m : Outcome A) (k : A -> Outcome B) : Outcome B :=
  match m with
  | Ok a => k a
  | Throw e => Throw e
  | Unmodelled => Unmodelled
  end.

Notation "'do' x <- m ; k" := (bind m (fun x => k))
  (at level 10, x pattern, m at level 100, k at level 200).

Section Loops.
Context {A St : Type}.

(** [for (const a of l) { ... }]: the loop body [f] threads the state and
    the loop ends at the first throw. *)
Section ForOf.
Variable f : St -> A -> Outcome St.
Fixpoint forEach (l : list A) (s : St) : Outcome St :=
  match l with
  | [] => Ok s
  | a :: l' => do s' <- f s a; forEach l' s'
  end.
End ForOf.

(** [l.forEach((a, i) => { ... })], the index starting at [i]. *)
Section ForEachIndexed.
Variable f : nat -> St -> A -> Outcome St.
Fixpoint forEachIdx (i : nat) (l : list A) (s : St) : Outcome St :=
  match l with
  | [] => Ok s
  | a :: l' => do s' <- f i s a; forEachIdx (S i) l' s'
  end.
End ForEachIndexed.
End Loops.

(* ------------------------------------------------------------------ *)
(** ** The drawing layer: primitives and the document                   *)
(* ------------------------------------------------------------------ *)

(** The option bag of [doc.text]. *)
Record TextOpts : Type := mkTextOpts {
  o_align : option string;
  o_width : option Q;
  o_link : option string;
  o_underline : option bool;
  o_strike : option bool;
  o_oblique : option bool;
  o_indent : option Q;
  o_lineGap : option Q;
  o_continued : option bool
}.

Definition noOpts : TextOpts :=
  mkTextOpts None None None None None None None None None.

(** The option bag of [doc.image]. *)
Record ImageOpts : Type := mkImageOpts {
  i_width : option Q;
  i_height : option Q;
  i_fit : option (Q * Q);
  i_align : option string;
  i_valign : option string
}.

(** What reaches the page.  The first argument is the page index. *)
Inductive Prim : Type :=
| PText (page : nat) (font : string) (size : Q) (color : string)
        (text : string) (x y : Q) (opts : TextOpts)
| PFillRect (page : nat) (x y w h : Q) (color : string) (opacity : Q)
| PStrokeRect (page : nat) (x y w h : Q) (color : string) (lineWidth : Q)
| PLine (page : nat) (x1 y1 x2 y2 : Q) (color : string) (lineWidth : Q)
| PImage (page : nat) (src : string) (x y : Q) (opts : ImageOpts)
| PLink (page : nat) (x y w h : Q) (url : string)
| PNewPage (page : nat).

Definition primPage (p : Prim) : nat :=
  match p with
  | PText pg _ _ _ _ _ _ _ => pg
  | PFillRect pg _ _ _ _ _ _ => pg
  | PStrokeRect pg _ _ _ _ _ _ => pg
  | PLine pg _ _ _ _ _ _ => pg
  | PImage pg _ _ _ _ => pg
  | PLink pg _ _ _ _ _ => pg
  | PNewPage pg => pg
  end.

(** The text layer: the characters a text extractor sees. *)
Definition visibleText (p : Prim) : option string :=
  match p with
  | PText _ _ _ _ t _ _ _ => Some t
  | _ => None
  end.

(** The annotation layer: the URIs bound to clickable regions, whether by
    [doc.link] or by the [link] option of [doc.text]. *)
Definition annotationUrl (p : Prim) : option string :=
  match p with
  | PLink _ _ _ _ _ u => Some u
  | PText _ _ _ _ _ _ _ o => if Js.truthyS (o_link o) then o_link o else None
  | _ => None
  end.

Record Doc : Type := mkDoc {
  page_width : Q;
  page_height : Q;
  margin_top : Q;
  margin_bottom : Q;
  margin_left : Q;
  margin_right : Q;
  doc_x : Q;
  doc_y : Q;
  cur_page : nat;          (* index of the page being written *)
  page_count : nat;        (* doc.bufferedPageRange().count *)
  cur_font : string;
  cur_size : Q;
  fill_color : string;
  stroke_color : string;
  line_width : Q;
  rng : nat;               (* how many times Math.random was called *)
  out : list Prim          (* what the engine had drawn, oldest first *)
}.

(** The world outside the engine. *)
Record Backend : Type := mkBackend {
  (* [doc.currentLineHeight(true)] for a font and a size *)
  currentLineHeight : string -> Q -> Q;
  (* the lines into which the line wrapper breaks a string, given the
     font, the size, the wrapping width and the options: one entry per
     line in order, [true] when a break ends the line (the wrapper then
     tests whether another line fits on the page), [false] for the tail
     of the string *)
  wrap : string -> Q -> Q -> TextOpts -> string -> list bool;
  (* [doc.widthOfString(t, opts)] *)
  widthOfString : string -> Q -> TextOpts -> string -> Q;
  (* rendered height of an image; [None] when it cannot be opened *)
  imageHeight : string -> ImageOpts -> option Q;
  (* the successive values of [Math.random()] *)
  mathRandom : nat -> Q
}.

Module PDFKit.
Section Ops.
Variable B : Backend.

Definition setXY (x y : Q) (d : Doc) : Doc :=
  mkDoc (page_width d) (page_height d) (margin_top d) (margin_bottom d)
        (margin_left d) (margin_right d) x y (cur_page d) (page_count d)
        (cur_font d) (cur_size d) (fill_color d) (stroke_color d)
        (line_width d) (rng d) (out d).

Definition setX (x : Q) (d : Doc) : Doc := setXY x (doc_y d) d.
Definition setY (y : Q) (d : Doc) : Doc := setXY (doc_x d) y d.

Definition emit (p : Prim) (d : Doc) : Doc :=
  mkDoc (page_width d) (page_height d) (margin_top d) (margin_bottom d)
        (margin_left d) (margin_right d) (doc_x d) (doc_y d) (cur_page d)
        (page_count d) (cur_font d) (cur_size d) (fill_color d)
        (stroke_color d) (line_width d) (rng d) (out d ++ [p]).

(** [doc.font(f).fontSize(s).fillColor(c)] *)
Definition setFont (f : string) (s : Q) (c : string) (d : Doc) : Doc :=
  mkDoc (page_width d) (page_height d) (margin_top d) (margin_bottom d)
        (margin_left d) (margin_right d) (doc_x d) (doc_y d) (cur_page d)
        (page_count d) f s c (stroke_color d) (line_width d) (rng d) (out d).

Definition fillColor (c : string) (d : Doc) : Doc :=
  setFont (cur_font d) (cur_size d) c d.

(** [doc.strokeColor(c).lineWidth(w)] *)
Definition setStroke (c : string) (w : Q) (d : Doc) : Doc :=
  mkDoc (page_width d) (page_height d) (margin_top d) (margin_bottom d)
        (margin_left d) (margin_right d) (doc_x d) (doc_y d) (cur_page d)
        (page_count d) (cur_font d) (cur_size d) (fill_color d) c w
        (rng d) (out d).

Definition tickRandom (d : Doc) : Doc :=
  mkDoc (page_width d) (page_height d) (margin_top d) (margin_bottom d)
        (margin_left d) (margin_right d) (doc_x d) (doc_y d) (cur_page d)
        (page_count d) (cur_font d) (cur_size d) (fill_color d)
        (stroke_color d) (line_width d) (S (rng d)) (out d).

(** [doc.addPage()]: a page is appended, becomes current, and the cursor
    goes to its top-left content corner. *)
Definition addPage (d : Doc) : Doc :=
  mkDoc (page_width d) (page_height d) (margin_top d) (margin_bottom d)
        (margin_left d) (margin_right d) (margin_left d) (margin_top d)
        (page_count d) (S (page_count d)) (cur_font d) (cur_size d)
        (fill_color d) (stroke_color d) (line_width d) (rng d)
        (out d ++ [PNewPage (page_count d)]).

(** [doc.switchToPage(i)] *)
Definition switchToPage (i : nat) (d : Doc) : Doc :=
  mkDoc (page_width d) (page_height d) (margin_top d) (margin_bottom d)
        (margin_left d) (margin_right d) (doc_x d) (doc_y d) i
        (page_count d) (cur_font d) (cur_size d) (fill_color d)
        (stroke_color d) (line_width d) (rng d) (out d).

(** Width of the content area of the current page. *)
Definition contentWidth (d : Doc) : Q :=
  page_width d - margin_left d - margin_right d.

(** [doc.page.maxY()]: the bottom of the content area. *)
Definition pageBottom (d : Doc) : Q := page_height d - margin_bottom d.

(** [doc.continueOnNewPage()], PDFKit's own page break: like [addPage],
    but not a call of the engine. *)
Definition continueOnNewPage (d : Doc) : Doc :=
  mkDoc (page_width d) (page_height d) (margin_top d) (margin_bottom d)
        (margin_left d) (margin_right d) (margin_left d) (margin_top d)
        (page_count d) (S (page_count d)) (cur_font d) (cur_size d)
        (fill_color d) (stroke_color d) (line_width d) (rng d) (out d).

(** The line wrapper's [nextSection]: the text goes on at the top of a new
    page, at the horizontal position where the call began. *)
Definition nextSection (startX : Q) (d : Doc) : Doc :=
  setX startX (continueOnNewPage d).

(** The width a text call wraps to: [options.width], or else what is left
    of the page to the right of the cursor, and never less than [0]. *)
Definition wrapWidth (o : TextOpts) (d : Doc) : Q :=
  let w := match o_width o with
           | Some w => w
           | None => page_width d - doc_x d - margin_right d
           end in
  if Js.gtb w 0 then w else 0.

(** [options.lineGap || 0] *)
Definition lineGapOf (o : TextOpts) : Q := Js.orQ (o_lineGap o) 0.

(** The wrapper's opening test: the cursor is below the content area, or a
    line of height [lh] does not fit above its bottom. *)
Definition offPage (lh : Q) (d : Doc) : bool :=
  Js.gtb (doc_y d) (pageBottom d) || Js.gtb (doc_y d + lh) (pageBottom d).

(** Whether a text call starts a new page before it lays its first line:
    only a call that wraps makes the opening test. *)
Definition startsPage (o : TextOpts) (d : Doc) : bool :=
  negb (Qeq_bool (wrapWidth o d) 0)
  && offPage (currentLineHeight B (cur_font d) (cur_size d)) d.

(** The document as the first line of a text call is about to be laid. *)
Definition textStart (o : TextOpts) (d : Doc) : Doc :=
  if startsPage o d then nextSection (doc_x d) d else d.

(** One line: it is laid at the cursor, the cursor moves down by the line
    height and the gap, and after a line that a break ended a new page is
    started when the next line would not fit.  The state carries the
    vertical position of the line laid last. *)
Definition lineStep (lh gap startX : Q) (st : Doc * Q) (broken : bool)
    : Doc * Q :=
  let '(d, _) := st in
  let y := doc_y d in
  let d := setY (y + lh + gap) d in
  (if broken && Js.gtb (doc_y d + lh) (pageBottom d)
   then nextSection startX d
   else d,
   y).

Definition flow (lh gap startX : Q) (lines : list bool) (d : Doc) : Doc * Q :=
  fold_left (lineStep lh gap startX) lines (d, doc_y d).

(** [doc.text(t, opts)]: written at the cursor. *)
Definition text (t : string) (o : TextOpts) (d : Doc) : Doc :=
  let font := cur_font d in
  let size := cur_size d in
  let w := wrapWidth o d in
  let startX := doc_x d in
  let d := textStart o d in
  let d := emit (PText (cur_page d) font size (fill_color d) t
                       (doc_x d) (doc_y d) o) d in
  if Qeq_bool w 0 then
    (* nothing to wrap to: one run, and the cursor moves to its right *)
    setX (doc_x d + widthOfString B font size o t) d
  else
    let lh := currentLineHeight B font size in
    let '(d, lastY) := flow lh (lineGapOf o) startX
                            (wrap B font size w o t) d in
    if Js.truthyB (o_continued o) then setY lastY d else setX startX d.

(** [doc.text(t, x, y, opts)]: the cursor is moved to [(x, y)] first. *)
Definition textAt (t : string) (x y : Q) (o : TextOpts) (d : Doc) : Doc :=
  text t o (setXY x y d).

(** [doc.moveDown(n)] *)
Definition moveDown (n : Q) (d : Doc) : Doc :=
  setY (doc_y d + currentLineHeight B (cur_font d) (cur_size d) * n) d.

(** [doc.save(); doc.rect(x, y, w, h).fill(c); doc.restore()] *)
Definition fillRect (x y w h : Q) (c : string) (opacity : Q) (d : Doc) : Doc :=
  emit (PFillRect (cur_page d) x y w h c opacity) d.

Definition strokeRect (x y w h : Q) (d : Doc) : Doc :=
  emit (PStrokeRect (cur_page d) x y w h (stroke_color d) (line_width d)) d.

(** [doc.moveTo(x1, y1).lineTo(x2, y2).stroke()] *)
Definition strokeLine (x1 y1 x2 y2 : Q) (d : Doc) : Doc :=
  emit (PLine (cur_page d) x1 y1 x2 y2 (stroke_color d) (line_width d)) d.

(** [doc.link(x, y, w, h, url)] *)
Definition link (x y w h : Q) (url : string) (d : Doc) : Doc :=
  emit (PLink (cur_page d) x y w h url) d.

(** [doc.image(src, opts)] and [doc.image(src, x, y, opts)].  PDFKit
    advances the cursor past the image when the image sits at the
    cursor's vertical position. *)
Definition image (src : string) (pos : option (Q * Q)) (o : ImageOpts)
    (d : Doc) : Outcome Doc :=
  match imageHeight B src o with
  | None => Throw (AssetError src)
  | Some h =>
      let '(x, y) := match pos with
                     | Some p => p
                     | None => (doc_x d, doc_y d)
                     end in
      let d1 := emit (PImage (cur_page d) src x y o) d in
      Ok (if Qeq_bool (doc_y d) y then setY (doc_y d + h) d1 else d1)
  end.

End Ops.
End PDFKit.

(* ------------------------------------------------------------------ *)
(** ** The document specification                                       *)
(* ------------------------------------------------------------------ *)

(** A table body cell: plain text, or an object [{ text, link, color }]. *)
Inductive Cell : Type :=
| CUndefined
| CNull
| CString (s : string)
| CObject (text link color : option string).

(** A table body row: an array of cells, or an object whose values are the
    cells. *)
Inductive Row : Type :=
| RArray (cells : list Cell)
| RObject (fields : list (string * Cell))
| RNull.

(** A list item: a string, or an object [{ text, link }]. *)
Inductive Item : Type :=
| IString (s : string)
| IObject (text link : option string)
| INull.

(** The attributes that the renderers override by object spread. *)
Record Style : Type := mkStyle {
  st_font : option string;
  st_fontSize : option Q;
  st_color : option string;
  st_underline : option bool;
  st_width : option Q
}.

Record TableAttrs : Type := mkTableAttrs {
  headers : option (list string);
  rows : option (list Row);
  columnWidths : option (list Q);
  headerFont : option string;
  bodyFont : option string;
  headerBackground : option string;
  headerColor : option string;
  alternateRowBackground : option string;
  cellPadding : option Q;
  rowHeight : option Q;
  gridLines : option bool;
  gridColor : option string
}.

Record OverlayAttrs : Type := mkOverlayAttrs {
  opacity : option Q;
  label : option string;
  labelColor : option string;
  labelSize : option Q;
  lineColor : option string
}.

Record Attrs : Type := mkAttrs {
  el_type : string;
  el_style : Style;
  el_value : option string;
  el_url : option string;
  el_link : option string;
  el_align : option string;
  el_height : option Q;
  el_strike : option bool;
  el_oblique : option bool;
  el_indent : option Q;
  el_lineGap : option Q;
  el_continued : option bool;
  el_moveDown : option Q;
  el_level : option Q;
  el_stealth : option bool;
  el_x : option Q;
  el_y : option Q;
  el_lines : option Q;
  el_gap : option Q;
  el_items : option (list Item);
  el_ordered : option bool;
  el_table : TableAttrs;
  el_src : option string;
  el_fit : option (Q * Q);
  el_valign : option string;
  el_spacing : option Q;
  el_thickness : option Q;
  el_fill : option string;
  el_stroke : option string;
  el_lineWidth : option Q;
  el_overlay : OverlayAttrs
}.

Definition el_font (a : Attrs) := st_font (el_style a).
Definition el_fontSize (a : Attrs) := st_fontSize (el_style a).
Definition el_color (a : Attrs) := st_color (el_style a).
Definition el_underline (a : Attrs) := st_underline (el_style a).
Definition el_width (a : Attrs) := st_width (el_style a).

(** [{ ...el, <style fields> }] *)
Definition withStyle (s : Style) (a : Attrs) : Attrs :=
  mkAttrs (el_type a) s (el_value a) (el_url a) (el_link a) (el_align a)
          (el_height a) (el_strike a) (el_oblique a) (el_indent a)
          (el_lineGap a) (el_continued a) (el_moveDown a) (el_level a)
          (el_stealth a) (el_x a) (el_y a) (el_lines a) (el_gap a)
          (el_items a) (el_ordered a) (el_table a) (el_src a) (el_fit a)
          (el_valign a) (el_spacing a) (el_thickness a) (el_fill a)
          (el_stroke a) (el_lineWidth a) (el_overlay a).

(** [{ ...el, width: w }] *)
Definition withWidth (w : Q) (a : Attrs) : Attrs :=
  let s := el_style a in
  withStyle (mkStyle (st_font s) (st_fontSize s) (st_color s)
                     (st_underline s) (Some w)) a.

(** [{ ...el, fontSize: fs, font: f }] *)
Definition withFont (fs : Q) (f : string) (a : Attrs) : Attrs :=
  let s := el_style a in
  withStyle (mkStyle (Some f) (Some fs) (st_color s) (st_underline s)
                     (st_width s)) a.

(** [{ ...el, color: c, underline: u }] *)
Definition withColorUnderline (c : string) (u : bool) (a : Attrs) : Attrs :=
  let s := el_style a in
  withStyle (mkStyle (st_font s) (st_fontSize s) (Some c) (Some u)
                     (st_width s)) a.

(** One column of a [columns] element. *)
Record Column (E : Type) : Type := mkColumn {
  col_elements : option (list E);
  col_content : option (list E)
}.

Arguments mkColumn {E} _ _.
Arguments col_elements {E} _.
Arguments col_content {E} _.

(** An element: its attributes and, for [columns], the nested sequences. *)
#[warnings="-register-all"]
Inductive Element : Type :=
| El (a : Attrs) (columns : option (list (Column Element))).

Definition attrs (el : Element) : Attrs :=
  match el with El a _ => a end.

Definition el_columns (el : Element) : option (list (Column Element)) :=
  match el with El _ c => c end.

(** [spec.pageNumbers] *)
Record PageNumbers : Type := mkPageNumbers {
  pn_align : option string;
  pn_fontSize : option Q;
  pn_prefix : option string;
  pn_color : option string
}.

Record Spec : Type := mkSpec {
  sp_elements : option (list Element);
  sp_content : option (list Element);
  sp_pageNumbers : option PageNumbers
}.

(** The engine's own settings ([this.defaultFont], [this.defaultFontSize]). *)
Record Engine : Type := mkEngine {
  defaultFontSize : Q;
  defaultFont : string
}.

(* ------------------------------------------------------------------ *)
(** ** The engine                                                       *)
(* ------------------------------------------------------------------ *)

Module PDFEngine.
Import Js PDFKit.

Section Renderers.
Variable B : Backend.
Variable this : Engine.

(** *** Utilities *)

Definition keepS (o : option string) : option string :=
  if truthyS o then o else None.

Definition keepQ (o : option Q) : option Q :=
  if truthyQ o then o else None.

Definition flag (o : option bool) : option bool :=
  if truthyB o then Some true else None.

Definition _textOptions (el : Attrs) : TextOpts :=
  mkTextOpts (keepS (el_align el)) (keepQ (el_width el)) (keepS (el_link el))
             (flag (el_underline el)) (flag (el_strike el))
             (flag (el_oblique el)) (keepQ (el_indent el))
             (keepQ (el_lineGap el)) (flag (el_continued el)).

Definition _autoColumnWidths (doc : Doc) (count : nat) : list Q :=
  match count with
  | O => []
  | _ =>
      let totalWidth := contentWidth doc in
      let w := totalWidth / ofNat count in
      repeat w count
  end.

Definition _applyFont (doc : Doc) (el : Attrs) : Doc :=
  let font := orS (el_font el) (defaultFont this) in
  let size := orQ (el_fontSize el) (defaultFontSize this) in
  let color := orS (el_color el) "#000000" in
  setFont font size color doc.

(** [if (el.moveDown) doc.moveDown(el.moveDown)] *)
Definition moveDownIfSet (el : Attrs) (doc : Doc) : Doc :=
  if truthyQ (el_moveDown el)
  then moveDown B (nullishQ (el_moveDown el) 0) doc
  else doc.

(** *** Text and heading *)

Definition _renderText (doc : Doc) (el : Attrs) : Doc :=
  let doc := _applyFont doc el in
  let opts := _textOptions el in
  let doc := text B (orS (el_value el) "") opts doc in
  moveDownIfSet el doc.

Definition sizeMap (level : Q) : option Q :=
  if Qeq_bool level 1 then Some 26
  else if Qeq_bool level 2 then Some 22
  else if Qeq_bool level 3 then Some 18
  else if Qeq_bool level 4 then Some 16
  else if Qeq_bool level 5 then Some 14
  else if Qeq_bool level 6 then Some 12
  else None.

Definition _renderHeading (doc : Doc) (el : Attrs) : Doc :=
  let level := orQ (el_level el) 1 in
  let fontSize := orQ (el_fontSize el) (orQ (sizeMap level) 18) in
  let doc := _applyFont doc
               (withFont fontSize (orS (el_font el) "Helvetica-Bold") el) in
  let opts := _textOptions el in
  let doc := text B (orS (el_value el) "") opts doc in
  moveDown B (nullishQ (el_moveDown el) 0.5) doc.

(** *** Stealth link *)

(** The option bag of the stealth renderer: [align], [width] and
    [underline] when set, and never a [link]. *)
Definition stealthOpts (el : Attrs) : TextOpts :=
  mkTextOpts (keepS (el_align el)) (keepQ (el_width el)) None
             (flag (el_underline el)) None None None None None.

Definition _renderStealthLink (doc : Doc) (el : Attrs) : Doc :=
  let fontSize := orQ (el_fontSize el) (defaultFontSize this) in
  let color := orS (el_color el) "#000000" in
  let font := orS (el_font el) (defaultFont this) in
  let doc := setFont font fontSize color doc in
  (* Record position before rendering text *)
  let startX := doc_x doc in
  let startY := doc_y doc in
  (* Text options WITHOUT the link property *)
  let opts := stealthOpts el in
  let doc := text B (orS (el_value el) "") opts doc in
  let doc :=
    match keepS (el_url el) with
    | Some url =>
        let endY := doc_y doc in
        let textHeight := endY - startY in
        let textWidth := orQ (el_width el) (contentWidth doc) in
        link startX startY textWidth textHeight url doc
    | None => doc
    end in
  moveDownIfSet el doc.

(** *** Link *)

Definition _renderLink (doc : Doc) (el : Attrs) : Outcome Doc :=
  if truthyB (el_stealth el) then
    Ok (_renderStealthLink doc
          (withColorUnderline (orS (el_color el) "#000000")
                              (nullishB (el_underline el) false) el))
  else
    let fontSize := orQ (el_fontSize el) (defaultFontSize this) in
    let color := orS (el_color el) "#1a0dab" in
    let doc := setFont (orS (el_font el) (defaultFont this)) fontSize color doc in
    let o := _textOptions el in
    let opts := mkTextOpts (o_align o) (o_width o) (el_url el) (Some true)
                           (o_strike o) (o_oblique o) (o_indent o)
                           (o_lineGap o) (o_continued o) in
    (* el.value || el.url; PDFKit writes an undefined text as "" *)
    let shown := orS (el_value el)
                     (match el_url el with Some u => u | None => "" end) in
    let doc := text B shown opts doc in
    let doc := fillColor "#000000" doc in
    Ok (moveDownIfSet el doc).

(** *** List *)

Definition listItem (el : Attrs) (ordered : bool) (indent : Q)
    (i : nat) (doc : Doc) (item : Item) : Outcome Doc :=
  let bullet := if ordered
                then String.append (natToString (i + 1)) ". "
                else "• " in
  let o := _textOptions el in
  match item with
  | IString s =>
      let opts := mkTextOpts (o_align o) (o_width o) (o_link o)
                    (o_underline o) (o_strike o) (o_oblique o)
                    (Some indent) (o_lineGap o) (o_continued o) in
      Ok (text B (String.append bullet s) opts doc)
  | IObject t l =>
      let opts := mkTextOpts (o_align o) (o_width o) l
                    (Some (truthyS l)) (o_strike o) (o_oblique o)
                    (Some indent) (o_lineGap o) (o_continued o) in
      Ok (text B (String.append bullet (orS t "")) opts doc)
  | INull => Throw (TypeError "Cannot read properties of null (reading 'text')")
  end.

Definition _renderList (doc : Doc) (el : Attrs) : Outcome Doc :=
  let doc := _applyFont doc el in
  let items := match el_items el with Some l => l | None => [] end in
  let ordered := truthyB (el_ordered el) in
  let indent := orQ (el_indent el) 15 in
  do doc <- forEachIdx (listItem el ordered indent) O items doc;
  Ok (moveDown B (nullishQ (el_moveDown el) 0.5) doc).

(** *** Table *)

(** The constants computed at the head of [_renderTable]. *)
Record TableLayout : Type := mkTableLayout {
  tl_colWidths : list Q;
  tl_startX : Q;
  tl_headerFont : string;
  tl_bodyFont : string;
  tl_fontSize : Q;
  tl_headerBg : string;
  tl_headerColor : string;
  tl_rowAltBg : string;
  tl_cellPadding : Q;
  tl_rowHeight : Q
}.

Definition tableHeaders (el : Attrs) : list string :=
  match headers (el_table el) with Some l => l | None => [] end.

Definition tableRows (el : Attrs) : list Row :=
  match rows (el_table el) with Some l => l | None => [] end.

Definition tableLayout (doc : Doc) (el : Attrs) : TableLayout :=
  let t := el_table el in
  let colWidths :=
    match columnWidths t with
    | Some ws => ws
    | None => _autoColumnWidths doc (length (tableHeaders el))
    end in
  let fontSize := orQ (el_fontSize el) 10 in
  let cellPadding := orQ (cellPadding t) 5 in
  mkTableLayout
    colWidths
    (orQ (el_x el) (doc_x doc))
    (orS (headerFont t) "Helvetica-Bold")
    (orS (bodyFont t) (defaultFont this))
    fontSize
    (orS (headerBackground t) "#4472C4")
    (orS (headerColor t) "#FFFFFF")
    (orS (alternateRowBackground t) "#F2F2F2")
    cellPadding
    (orQ (rowHeight t) (fontSize + cellPadding * 2 + 4)).

(** [colWidths.reduce((a, b) => a + b, 0)] *)
Definition totalWidth (colWidths : list Q) : Q :=
  fold_left Qplus colWidths 0.

Definition widthOpts (w : Q) (align link : option string)
    (underline : option bool) : TextOpts :=
  mkTextOpts align (Some w) link underline None None None None None.

(** One header label; the state is the document and the running [x]. *)
Definition headerCell (L : TableLayout) (y : Q) (i : nat) (st : Doc * Q)
    (h : string) : Outcome (Doc * Q) :=
  let '(doc, x) := st in
  match nth_error (tl_colWidths L) i with
  | None => Unmodelled
  | Some wi =>
      let pad := tl_cellPadding L in
      let doc := setFont (tl_headerFont L) (tl_fontSize L)
                         (tl_headerColor L) doc in
      let doc := textAt B h (x + pad) (y + pad)
                   (widthOpts (wi - pad * 2) (Some "left") None None) doc in
      Ok (doc, x + wi)
  end.

(** [colWidths[ci] || 100] *)
Definition cellWidth (L : TableLayout) (ci : nat) : Q :=
  orQ (nth_error (tl_colWidths L) ci) 100.

(** [String(cell ?? "")] for a cell that is not a linked object. *)
Definition cellString (cell : Cell) : string :=
  match cell with
  | CUndefined => ""
  | CNull => ""
  | CString s => s
  | CObject _ _ _ => "[object Object]"
  end.

(** [typeof cell === "object" && cell !== null && cell.link] *)
Definition cellLink (cell : Cell) : option string :=
  match cell with
  | CObject _ l _ => keepS l
  | _ => None
  end.

(** One body cell; the state is the document and the running [x]. *)
Definition bodyCell (L : TableLayout) (y : Q) (ci : nat) (st : Doc * Q)
    (cell : Cell) : Doc * Q :=
  let '(doc, x) := st in
  let pad := tl_cellPadding L in
  let w := cellWidth L ci in
  let doc := setFont (tl_bodyFont L) (tl_fontSize L) "#000000" doc in
  let doc :=
    match cell, cellLink cell with
    | CObject t _ c, Some l =>
        let doc := fillColor (orS c "#1a0dab") doc in
        let doc := textAt B (orS t "") (x + pad) (y + pad)
                     (widthOpts (w - pad * 2) None (Some l) (Some true)) doc in
        fillColor "#000000" doc
    | _, _ =>
        textAt B (cellString cell) (x + pad) (y + pad)
          (widthOpts (w - pad * 2) None None None) doc
    end in
  (doc, x + w).

(** [Array.isArray(row) ? row : Object.values(row)] *)
Definition rowCells (row : Row) : Outcome (list Cell) :=
  match row with
  | RArray cells => Ok cells
  | RObject fields => Ok (map snd fields)
  | RNull => Throw (TypeError "Cannot convert undefined or null to object")
  end.

(** [y + rowHeight > doc.page.height - doc.page.margins.bottom] *)
Definition needsNewPage (L : TableLayout) (doc : Doc) (y : Q) : bool :=
  gtb (y + tl_rowHeight L) (page_height doc - margin_bottom doc).

(** The page check at the head of the body-row loop. *)
Definition rowBreak (L : TableLayout) (st : Doc * Q) : Doc * Q :=
  let '(doc, y) := st in
  if needsNewPage L doc y
  then let doc := addPage doc in (doc, margin_top doc)
  else (doc, y).

(** The alternate background: [if (ri % 2 === 1) { ... }]. *)
Definition rowBackground (L : TableLayout) (ri : nat) (doc : Doc) (y : Q)
    : Doc :=
  if Nat.eqb (ri mod 2) 1
  then fillRect (tl_startX L) y (totalWidth (tl_colWidths L))
                (tl_rowHeight L) (tl_rowAltBg L) 1 doc
  else doc.

(** The rest of the loop body: background, cells, advance. *)
Definition paintRow (L : TableLayout) (ri : nat) (st : Doc * Q) (row : Row)
    : Outcome (Doc * Q) :=
  let '(doc, y) := st in
  let doc := rowBackground L ri doc y in
  do cells <- rowCells row;
  do st' <- forEachIdx (fun ci st cell => Ok (bodyCell L y ci st cell))
                       O cells (doc, tl_startX L);
  Ok (fst st', y + tl_rowHeight L).

Definition bodyRow (L : TableLayout) (ri : nat) (st : Doc * Q) (row : Row)
    : Outcome (Doc * Q) :=
  paintRow L ri (rowBreak L st) row.

Definition headerRow (L : TableLayout) (hs : list string) (st : Doc * Q)
    : Outcome (Doc * Q) :=
  let '(doc, y) := st in
  match hs with
  | [] => Ok (doc, y)
  | _ =>
      let doc := fillRect (tl_startX L) y (totalWidth (tl_colWidths L))
                          (tl_rowHeight L) (tl_headerBg L) 1 doc in
      do st' <- forEachIdx (headerCell L y) O hs (doc, tl_startX L);
      Ok (fst st', y + tl_rowHeight L)
  end.

Definition tableFinish (L : TableLayout) (el : Attrs) (st : Doc * Q) : Doc :=
  let '(doc, y) := st in
  let doc :=
    match gridLines (el_table el) with
    | Some false => doc
    | _ =>
        let totalW := totalWidth (tl_colWidths L) in
        let doc := setStroke (orS (gridColor (el_table el)) "#CCCCCC") 0.5 doc in
        strokeLine (tl_startX L) y (tl_startX L + totalW) y doc
    end in
  setXY (tl_startX L) (y + 5) doc.

Definition _renderTable (doc : Doc) (el : Attrs) : Outcome Doc :=
  let L := tableLayout doc el in
  do st <- headerRow L (tableHeaders el) (doc, doc_y doc);
  do st <- forEachIdx (bodyRow L) O (tableRows el) st;
  Ok (tableFinish L el st).

(** *** Image, divider, spacer, rect *)

Definition _renderImage (doc : Doc) (el : Attrs) : Outcome Doc :=
  let opts := mkImageOpts (keepQ (el_width el)) (keepQ (el_height el))
                          (el_fit el) (keepS (el_align el))
                          (keepS (el_valign el)) in
  match el_src el with
  | None =>
      Throw (TypeError "Cannot read properties of undefined (reading 'width')")
  | Some src =>
      let pos := match el_x el, el_y el with
                 | Some x, Some y => Some (x, y)
                 | _, _ => None
                 end in
      do doc <- image B src pos opts doc;
      let doc :=
        match keepS (el_link el) with
        | Some url =>
            (* Make the image clickable *)
            let x := orQ (el_x el) (doc_x doc) in
            let imgY := orQ (el_y el) (doc_y doc) in
            let w := orQ (el_width el) 100 in
            let h := orQ (el_height el) 100 in
            link x (imgY - h) w h url doc
        | None => doc
        end in
      Ok (moveDownIfSet el doc)
  end.

Definition _renderDivider (doc : Doc) (el : Attrs) : Doc :=
  let x := orQ (el_x el) (margin_left doc) in
  let w := orQ (el_width el) (contentWidth doc) in
  let y := doc_y doc in
  let doc := setStroke (orS (el_color el) "#CCCCCC")
                       (orQ (el_thickness el) 1) doc in
  let doc := strokeLine x y (x + w) y doc in
  setY (y + orQ (el_spacing el) 10) doc.

Definition _renderSpacer (doc : Doc) (el : Attrs) : Doc :=
  moveDown B (orQ (el_lines el) 1) doc.

(** [el.x], [el.y], [el.width], [el.height], read without a default. *)
Definition rectBox (el : Attrs) : option (Q * Q * Q * Q) :=
  match el_x el, el_y el, el_width el, el_height el with
  | Some x, Some y, Some w, Some h => Some (x, y, w, h)
  | _, _, _, _ => None
  end.

Definition withBox (el : Attrs) (k : Q -> Q -> Q -> Q -> Doc) : Outcome Doc :=
  match rectBox el with
  | Some (x, y, w, h) => Ok (k x y w h)
  | None => Unmodelled
  end.

Definition _renderRect (doc : Doc) (el : Attrs) : Outcome Doc :=
  do doc <- match keepS (el_fill el) with
            | Some c => withBox el (fun x y w h => fillRect x y w h c 1 doc)
            | None => Ok doc
            end;
  do doc <- match keepS (el_stroke el) with
            | Some c =>
                let doc := setStroke c (orQ (el_lineWidth el) 1) doc in
                withBox el (fun x y w h => strokeRect x y w h doc)
            | None => Ok doc
            end;
  match keepS (el_link el) with
  | Some url => withBox el (fun x y w h => link x y w h url doc)
  | None => Ok doc
  end.

(** *** Overlay *)

(** [for (let i = 1; i <= lines; i++)] runs for [i = 1 .. floor(lines)]. *)
Definition overlayLineCount (lines : Q) : nat := Z.to_nat (Qfloor lines).

Definition overlayLine (leftMargin startY lineGap contentW : Q)
    (lineColor : string) (doc : Doc) (i : nat) : Doc :=
  let ly := startY + lineGap * ofNat i in
  (* Vary line widths to look like obscured text *)
  let lw := contentW * (0.4 + mathRandom B (rng doc) * 0.45) in
  fillRect leftMargin ly lw 8 lineColor 1 (tickRandom doc).

Definition _renderOverlay (doc : Doc) (el : Attrs) : Doc :=
  let ov := el_overlay el in
  let leftMargin := margin_left doc in
  let contentW := contentWidth doc in
  let overlayHeight := orQ (el_height el) 200 in
  let startY := doc_y doc in
  (* faint placeholder lines behind the overlay *)
  let lines := nullishQ (el_lines el) 6 in
  let lineColor := orS (lineColor ov) "#E0E0E0" in
  let lineGap := overlayHeight / (lines + 2) in
  let doc := fold_left (overlayLine leftMargin startY lineGap contentW lineColor)
                       (seq 1 (overlayLineCount lines)) doc in
  (* semi-transparent overlay rectangle *)
  let overlayColor := orS (el_color el) "#FFFFFF" in
  let opacity := nullishQ (opacity ov) 0.85 in
  let doc := fillRect leftMargin startY contentW overlayHeight
                      overlayColor opacity doc in
  (* the clickable call-to-action label *)
  let label := orS (label ov) "Click to View" in
  let labelSize := orQ (labelSize ov) 18 in
  let labelColor := orS (labelColor ov) "#1a0dab" in
  let labelY := startY + overlayHeight / 2 - labelSize / 2 in
  let doc := setFont "Helvetica-Bold" labelSize labelColor doc in
  let textOpts := widthOpts contentW (Some "center") (keepS (el_url el))
                            (Some true) in
  let doc := textAt B label leftMargin labelY textOpts doc in
  (* the entire overlay area is clickable if a URL is provided *)
  let doc := match keepS (el_url el) with
             | Some url => link leftMargin startY contentW overlayHeight url doc
             | None => doc
             end in
  let doc := fillColor "#000000" doc in
  setXY leftMargin (startY + overlayHeight + 10) doc.

(** *** Columns *)

Section Columns.
(** The dispatcher, applied to [{ ...child, width: colWidth }]. *)
Variable renderPatched : Q -> Element -> Doc -> Outcome Doc.

(** [for (const child of col.elements || col.content || [])] *)
Definition renderChildren (colWidth : Q) (col : Column Element) (doc : Doc)
    : Outcome Doc :=
  match col_elements col with
  | Some l => forEach (fun doc child => renderPatched colWidth child doc) l doc
  | None =>
      match col_content col with
      | Some l => forEach (fun doc child => renderPatched colWidth child doc) l doc
      | None => Ok doc
      end
  end.

(** Horizontal offset of column [i]. *)
Definition columnX (doc : Doc) (colWidth gap : Q) (i : nat) : Q :=
  margin_left doc + ofNat i * (colWidth + gap).

(** The body of [columns.forEach]; the state is the document and [maxY]. *)
Definition renderColumn (gap colWidth startY : Q) (i : nat) (st : Doc * Q)
    (col : Column Element) : Outcome (Doc * Q) :=
  let '(doc, maxY) := st in
  let x := columnX doc colWidth gap i in
  let doc := setXY x startY doc in
  do doc <- renderChildren colWidth col doc;
  Ok (doc, if gtb (doc_y doc) maxY then doc_y doc else maxY).

Definition columnGap (el : Attrs) : Q := orQ (el_gap el) 20.

Definition columnWidth (doc : Doc) (el : Attrs) (n : nat) : Q :=
  let gap := columnGap el in
  let totalWidth := contentWidth doc in
  (totalWidth - gap * (ofNat n - 1)) / ofNat n.

Definition renderColumnList (doc : Doc) (el : Attrs)
    (columns : list (Column Element)) : Outcome Doc :=
  let gap := columnGap el in
  let colWidth := columnWidth doc el (length columns) in
  let startY := doc_y doc in
  do st <- forEachIdx (renderColumn gap colWidth startY) O columns
                      (doc, startY);
  let '(doc, maxY) := st in
  Ok (setXY (margin_left doc) maxY doc).

Definition _renderColumns (doc : Doc) (el : Attrs)
    (columns : option (list (Column Element))) : Outcome Doc :=
  match columns with
  | Some l => renderColumnList doc el l
  | None => renderColumnList doc el []
  end.
End Columns.

(** *** Dispatcher *)

(** [_renderElement], with the width that an enclosing [columns] element
    injects ([None] at top level). *)
Fixpoint renderElementIn (inject : option Q) (el : Element) (doc : Doc)
    {struct el} : Outcome Doc :=
  match el with
  | El a0 columns =>
      let a := match inject with
               | Some w => withWidth w a0
               | None => a0
               end in
      let type := el_type a in
      if String.eqb type "text" then Ok (_renderText doc a)
      else if String.eqb type "heading" then Ok (_renderHeading doc a)
      else if String.eqb type "link" then _renderLink doc a
      else if String.eqb type "list" then _renderList doc a
      else if String.eqb type "table" then _renderTable doc a
      else if String.eqb type "image" then _renderImage doc a
      else if String.eqb type "divider" then Ok (_renderDivider doc a)
      else if String.eqb type "spacer" then Ok (_renderSpacer doc a)
      else if String.eqb type "columns" then
        _renderColumns (fun w => renderElementIn (Some w)) doc a columns
      else if String.eqb type "rect" then _renderRect doc a
      else if String.eqb type "overlay" then Ok (_renderOverlay doc a)
      else if String.eqb type "stealthLink" then Ok (_renderStealthLink doc a)
      else if String.eqb type "pageBreak" then Ok (addPage doc)
      else
        (* Unknown type: silently skip. *)
        Ok doc
  end.

Definition _renderElement (doc : Doc) (el : Element) : Outcome Doc :=
  renderElementIn None el doc.

(** [{ ...child, width: w }] *)
Definition patched (w : Q) (child : Element) : Element :=
  match child with
  | El a columns => El (withWidth w a) columns
  end.

(** *** Page numbers and the render session *)

Definition footerText (prefix : string) (i count : nat) : string :=
  String.append prefix
    (String.append (natToString (i + 1))
       (String.append " of " (natToString count))).

Definition footerY (doc : Doc) : Q :=
  page_height doc - margin_bottom doc + 15.

Definition stampPage (opts : PageNumbers) (count : nat) (doc : Doc) (i : nat)
    : Doc :=
  let align := orS (pn_align opts) "center" in
  let fontSize := orQ (pn_fontSize opts) 10 in
  let prefix := orS (pn_prefix opts) "Page " in
  let doc := switchToPage i doc in
  let doc := setFont (defaultFont this) fontSize
                     (orS (pn_color opts) "#888888") doc in
  textAt B (footerText prefix i count) (margin_left doc) (footerY doc)
         (widthOpts (contentWidth doc) (Some align) None None) doc.

Definition _addPageNumbers (doc : Doc) (opts : PageNumbers) : Doc :=
  let count := page_count doc in
  fold_left (stampPage opts count) (seq 0 count) doc.

Definition specElements (spec : Spec) : list Element :=
  match sp_elements spec with
  | Some l => l
  | None => match sp_content spec with Some l => l | None => [] end
  end.

Definition _render (doc : Doc) (spec : Spec) : Outcome Doc :=
  do doc <- forEach _renderElement (specElements spec) doc;
  match sp_pageNumbers spec with
  | Some opts => Ok (_addPageNumbers doc opts)
  | None => Ok doc
  end.

End Renderers.
End PDFEngine.

(* ------------------------------------------------------------------ *)
(** ** Sample documents                                                 *)
(* ------------------------------------------------------------------ *)

Module Sample.

(** The character U+000A. *)
Definition newline : ascii := "010"%char.

(** Lines that end at the newlines of the string and nowhere else:
    [pending] tells whether the line being read holds a character. *)
Fixpoint breakAtNewlines (pending : bool) (s : string) : list bool :=
  match s with
  | EmptyString => if pending then [false] else []
  | String c rest =>
      if Ascii.eqb c newline
      then true :: breakAtNewlines false rest
      else breakAtNewlines true rest
  end.

(** A backend with the line height of PDFKit's Helvetica (1.156 times the
    size; 1.19 for the bold face), glyphs without width, so that a line
    ends only at a newline, images of their requested height (100 by
    default) and a constant random source. *)
Definition backend : Backend :=
  mkBackend (fun font size => if String.eqb font "Helvetica-Bold"
                              then size * 1.19 else size * 1.156)
            (fun _ _ _ _ t => breakAtNewlines false t)
            (fun _ _ _ _ => 0)
            (fun src o => if String.eqb src "missing.png" then None
                          else Some (Js.orQ (i_height o) 100))
            (fun _ => 1 # 2).

(** [new PDFEngine()] *)
Definition engine : Engine := mkEngine 12 "Helvetica".

(** A fresh A4 document with the engine's default margins. *)
Definition a4 : Doc :=
  mkDoc 595.28 841.89 50 50 50 50 50 50 0 1 "Helvetica" 12 "black" "black"
        1 0 [].

Definition noStyle : Style := mkStyle None None None None None.

Definition noTable : TableAttrs :=
  mkTableAttrs None None None None None None None None None None None None.

Definition noOverlay : OverlayAttrs := mkOverlayAttrs None None None None None.

(** [{ type: ty }] *)
Definition bare (ty : string) : Attrs :=
  mkAttrs ty noStyle None None None None None None None None None None None
          None None None None None None None None noTable None None None
          None None None None None noOverlay.

(** [{ type: ty, value: v, url: u }] *)
Definition labelled (ty : string) (v u : option string) : Attrs :=
  mkAttrs ty noStyle v u None None None None None None None None None
          None None None None None None None None noTable None None None
          None None None None None noOverlay.

(** [{ type: "table", headers: hs, rows: rs }] *)
Definition table (hs : option (list string)) (rs : list Row) : Attrs :=
  mkAttrs "table" noStyle None None None None None None None None None None
          None None None None None None None None None
          (mkTableAttrs hs (Some rs) None None None None None None None None
                        None None)
          None None None None None None None None noOverlay.

(** [{ type: "spacer", lines: n }] *)
Definition spacer (n : Q) : Attrs :=
  mkAttrs "spacer" noStyle None None None None None None None None None None
          None None None None None (Some n) None None None noTable None None
          None None None None None None noOverlay.

Definition leaf (a : Attrs) : Element := El a None.

(** [{ type: "divider", spacing: s }] *)
Definition divider (s : Q) : Attrs :=
  mkAttrs "divider" noStyle None None None None None None None None None
          None None None None None None None None None None noTable None
          None None (Some s) None None None None noOverlay.

(** Two columns, one advancing the cursor by 100 and one by 40. *)
Definition twoColumns : Element :=
  El (bare "columns")
     (Some [mkColumn (Some [leaf (divider 100)]) None;
            mkColumn (Some [leaf (divider 40)]) None]).

(** Three page breaks and page numbers: four pages. *)
Definition fourPages : Spec :=
  mkSpec (Some [leaf (bare "pageBreak"); leaf (bare "pageBreak");
                leaf (bare "pageBreak")])
         None (Some (mkPageNumbers None None None None)).

(** The same sheet with the cursor 700 points down the page. *)
Definition nearBottom : Doc :=
  mkDoc 595.28 841.89 50 50 50 50 50 700 0 1 "Helvetica" 12 "black" "black"
        1 0 [].

(** Six one-cell body rows and no header. *)
Definition sixRows : Attrs :=
  table None [RArray [CString "r0"]; RArray [CString "r1"];
              RArray [CString "r2"]; RArray [CString "r3"];
              RArray [CString "r4"]; RArray [CString "r5"]].

(** The table of the engine's test "supports tables with clickable
    cells". *)
Definition linkTable : Attrs :=
  table (Some ["Name"; "Link"])
        [RArray [CString "Google";
                 CObject (Some "Visit") (Some "https://google.com") None]].

(** A table with an [undefined] and a [null] cell. *)
Definition holeTable : Attrs :=
  table (Some ["A"; "B"]) [RArray [CUndefined; CNull]].

(** The same sheet with the cursor 785 points down the page: less than a
    line of 12-point Helvetica above the bottom margin. *)
Definition lastLine : Doc :=
  mkDoc 595.28 841.89 50 50 50 50 50 785 0 1 "Helvetica" 12 "black" "black"
        1 0 [].

(** [{ type: "text", value: v }] *)
Definition plainText (v : string) : Attrs := labelled "text" (Some v) None.

(** The specification of the engine's test "page numbers are added when
    requested". *)
Definition numbered : Spec :=
  mkSpec (Some [leaf (plainText "Page 1 content"); leaf (bare "pageBreak");
                leaf (plainText "Page 2 content")])
         None (Some (mkPageNumbers (Some "center") None None None)).

(** Eight short lines in one string. *)
Definition eightLines : string :=
  String.concat (String newline "")
                ["l1"; "l2"; "l3"; "l4"; "l5"; "l6"; "l7"; "l8"].

(** A spacer of 47 lines, which takes the cursor 702 points down the
    first page, and then a table of one row: a cell of eight lines and a
    cell of one. *)
Definition tallCell : Spec :=
  mkSpec (Some [leaf (spacer 47);
                leaf (table None [RArray [CString eightLines;
                                          CString "next"]])])
         None None.

End Sample.

Import Js PDFKit PDFEngine.

(* ------------------------------------------------------------------ *)
(** ** Vocabulary of the properties                                     *)
(* ------------------------------------------------------------------ *)

(** The [case] labels of the [switch] in [_renderElement]. *)
Definition registeredKinds : list string :=
  [ "text"; "heading"; "link"; "list"; "table"; "image"; "divider";
    "spacer"; "columns"; "rect"; "overlay"; "stealthLink"; "pageBreak" ].

(** [hay.includes(needle)] *)
Fixpoint includes (needle hay : string) : bool :=
  if String.prefix needle hay then true
  else match hay with
       | EmptyString => false
       | String _ rest => includes needle rest
       end.

(** The characters of the text layer, in emission order. *)
Definition textStream (prims : list Prim) : string :=
  String.concat "" (flat_map (fun p => match visibleText p with
                                       | Some t => [t]
                                       | None => []
                                       end) prims).

(** The URIs of the annotation layer, in emission order. *)
Definition annotations (prims : list Prim) : list string :=
  flat_map (fun p => match annotationUrl p with
                     | Some u => [u]
                     | None => []
                     end) prims.

Definition isFillRect (p : Prim) : bool :=
  match p with
  | PFillRect _ _ _ _ _ _ _ => true
  | _ => false
  end.

Definition isNewPage (p : Prim) : bool :=
  match p with
  | PNewPage _ => true
  | _ => false
  end.

Definition isLink (p : Prim) : bool :=
  match p with
  | PLink _ _ _ _ _ _ => true
  | _ => false
  end.

Definition isText (p : Prim) : bool :=
  match p with
  | PText _ _ _ _ _ _ _ _ => true
  | _ => false
  end.

Definition notLink (p : Prim) : bool := negb (isLink p).

Definition anyPrim (p : Prim) : bool := true.

(** The primitives that begin on page [i]. *)
Definition onPage (i : nat) (prims : list Prim) : list Prim :=
  filter (fun p => Nat.eqb (primPage p) i) prims.

(** *** How a document grows *)

(** Two documents on the same paper. *)
Definition sameGeometry (d d' : Doc) : Prop :=
  page_width d' = page_width d /\ page_height d' = page_height d /\
  margin_top d' = margin_top d /\ margin_bottom d' = margin_bottom d /\
  margin_left d' = margin_left d /\ margin_right d' = margin_right d.

(** [d'] continues [d]: the paper is the same, no page is lost, and what
    was drawn is still there, followed by primitives that satisfy [P]. *)
Definition continuesWith (P : Prim -> bool) (d d' : Doc) : Prop :=
  sameGeometry d d' /\
  (page_count d <= page_count d')%nat /\
  exists prims, out d' = out d ++ prims /\ forallb P prims = true.

(** What PDFKit's line flow keeps: the paper, what was drawn, the font
    state, and every page there was. *)
Definition flowKeeps (d d' : Doc) : Prop :=
  sameGeometry d d' /\ (page_count d <= page_count d')%nat /\
  out d' = out d /\ fill_color d' = fill_color d /\
  cur_font d' = cur_font d /\ cur_size d' = cur_size d.

(** The entry of [out] that a text call makes on document [d]: the text
    in the font, size and colour in force, where its first line goes. *)
Definition textPrim (B : Backend) (t : string) (o : TextOpts) (d : Doc)
    : Prim :=
  let ds := textStart B o d in
  PText (cur_page ds) (cur_font d) (cur_size d) (fill_color ds) t
        (doc_x ds) (doc_y ds) o.

(** *** What a table body row lays down *)

(** Colour, text and options of the text call of a body cell. *)
Definition cellColor (cell : Cell) : string :=
  match cell, cellLink cell with
  | CObject _ _ c, Some _ => orS c "#1a0dab"
  | _, _ => "#000000"
  end.

Definition cellText (cell : Cell) : string :=
  match cell, cellLink cell with
  | CObject t _ _, Some _ => orS t ""
  | _, _ => cellString cell
  end.

Definition cellOpts (L : TableLayout) (ci : nat) (cell : Cell) : TextOpts :=
  let w := cellWidth L ci - tl_cellPadding L * 2 in
  match cellLink cell with
  | Some l => widthOpts w None (Some l) (Some true)
  | None => widthOpts w None None None
  end.

(** The document on which the text call of a body cell is made: the body
    font, the cell's colour, and the cursor at the padded corner of the
    cell whose box begins at [(x, y)]. *)
Definition cellReady (L : TableLayout) (y x : Q) (cell : Cell) (doc : Doc)
    : Doc :=
  setXY (x + tl_cellPadding L) (y + tl_cellPadding L)
        (setFont (tl_bodyFont L) (tl_fontSize L) (cellColor cell) doc).

(** The entry of [out] that a body cell makes. *)
Definition cellPrim (B : Backend) (L : TableLayout) (y : Q) (ci : nat)
    (x : Q) (cell : Cell) (doc : Doc) : Prim :=
  textPrim B (cellText cell) (cellOpts L ci cell) (cellReady L y x cell doc).

(** The cell loop of a row whose top edge is [y]. *)
Definition cellLoop (B : Backend) (L : TableLayout) (y : Q)
    : nat -> list Cell -> Doc * Q -> Outcome (Doc * Q) :=
  forEachIdx (fun ci st cell => Ok (bodyCell B L y ci st cell)).

(** The left edge of cell [ci]: [startX] plus the widths before it. *)
Fixpoint cellX (L : TableLayout) (ci : nat) : Q :=
  match ci with
  | O => tl_startX L
  | S j => cellX L j + cellWidth L j
  end.

(** The alternating background of a row whose top edge is [y]. *)
Definition altFill (L : TableLayout) (pg : nat) (y : Q) : Prim :=
  PFillRect pg (tl_startX L) y (totalWidth (tl_colWidths L)) (tl_rowHeight L)
            (tl_rowAltBg L) 1.

(** The page on which a row begins, and its top edge, when the loop
    reaches it with document [d] and row cursor [y]. *)
Definition rowPage (L : TableLayout) (d : Doc) (y : Q) : nat :=
  if needsNewPage L d y then page_count d else cur_page d.

Definition rowTop (L : TableLayout) (d : Doc) (y : Q) : Q :=
  if needsNewPage L d y then margin_top d else y.

(** The document on which the cells of row [ri] are written: after the
    page check and the background. *)
Definition rowStart (L : TableLayout) (ri : nat) (d : Doc) (y : Q) : Doc :=
  rowBackground L ri (fst (rowBreak L (d, y))) (snd (rowBreak L (d, y))).

(** What an iteration of the body-row loop draws before the cells. *)
Definition rowLead (L : TableLayout) (ri : nat) (d : Doc) (y : Q)
    : list Prim :=
  (if needsNewPage L d y then [PNewPage (page_count d)] else [])
  ++ (if Nat.odd ri then [altFill L (rowPage L d y) (rowTop L d y)] else []).

(** A clickable region of its own over the full box of cell [ci] of a row
    whose top edge is [top]: column width by row height. *)
Definition fullCellRegion (L : TableLayout) (pg ci : nat) (top : Q)
    (url : string) : Prim :=
  PLink pg (cellX L ci) top (cellWidth L ci) (tl_rowHeight L) url.

(** *** Stealth links, footers, columns *)

(** The document on which the text call of [_renderStealthLink] is made,
    and the document right after that call. *)
Definition beforeStealthText (this : Engine) (doc : Doc) (el : Attrs) : Doc :=
  setFont (orS (el_font el) (defaultFont this))
          (orQ (el_fontSize el) (defaultFontSize this))
          (orS (el_color el) "#000000") doc.

Definition afterStealthText (B : Backend) (this : Engine) (doc : Doc)
    (el : Attrs) : Doc :=
  text B (orS (el_value el) "") (stealthOpts el)
       (beforeStealthText this doc el).

(** The text of a footer as the page-numbering pass writes it on a new
    page [pg]: at the left margin, under the top margin. *)
Definition strayFooter (this : Engine) (opts : PageNumbers) (d : Doc)
    (count i pg : nat) : Prim :=
  PText pg (defaultFont this) (orQ (pn_fontSize opts) 10)
        (orS (pn_color opts) "#888888")
        (footerText (orS (pn_prefix opts) "Page ") i count)
        (margin_left d) (margin_top d)
        (widthOpts (contentWidth d) (Some (orS (pn_align opts) "center"))
                   None None).

(** [P] holds of every child of a column. *)
Definition columnAll (P : Element -> Prop) (col : Column Element) : Prop :=
  match col_elements col with Some es => Forall P es | None => True end /\
  match col_content col with Some es => Forall P es | None => True end.

(** [col.elements || col.content || []] *)
Definition columnElements (col : Column Element) : list Element :=
  match col_elements col with
  | Some l => l
  | None => match col_content col with Some l => l | None => [] end
  end.

(** The dispatcher as [_renderColumns] calls it on the children. *)
Definition renderInColumn (B : Backend) (this : Engine)
    : Q -> Element -> Doc -> Outcome Doc :=
  fun w => renderElementIn B this (Some w).

(** A dispatcher that only adds to the document when it renders [el]. *)
Definition adds (renderPatched : Q -> Element -> Doc -> Outcome Doc)
    (el : Element) : Prop :=
  forall w d d', renderPatched w el d = Ok d' -> continuesWith anyPrim d d'.

(** *** What a renderer needs of its input *)

Definition isNullRow (r : Row) : bool :=
  match r with RNull => true | _ => false end.

Definition isNullItem (i : Item) : bool :=
  match i with INull => true | _ => false end.

(** [colWidths[i]] is defined for every header label. *)
Definition headerCovered (a : Attrs) : bool :=
  match columnWidths (el_table a) with
  | Some ws => Nat.leb (length (tableHeaders a)) (length ws)
  | None => true
  end.

(** A rectangle that is filled, stroked or linked has its coordinates. *)
Definition rectOk (a : Attrs) : bool :=
  negb (truthyS (el_fill a) || truthyS (el_stroke a) || truthyS (el_link a))
  || match rectBox a with Some _ => true | None => false end.

(** The attributes for which the engine has no default are there: the
    source of an image (one that can be opened), the coordinates of a
    rectangle that is drawn, a width for every header label where the
    widths are given; and no list item or table row is [null].  Every
    other attribute may be absent. *)
Definition attrsComplete (readable : string -> bool) (a : Attrs) : bool :=
  (if String.eqb (el_type a) "list"
   then forallb (fun i => negb (isNullItem i))
                (match el_items a with Some l => l | None => [] end)
   else true)
  && (if String.eqb (el_type a) "table"
      then forallb (fun r => negb (isNullRow r)) (tableRows a)
           && headerCovered a
      else true)
  && (if String.eqb (el_type a) "image"
      then match el_src a with Some src => readable src | None => false end
      else true)
  && (if String.eqb (el_type a) "rect" then rectOk a else true).

Fixpoint complete (readable : string -> bool) (el : Element) : bool :=
  match el with
  | El a columns =>
      attrsComplete readable a
      && match columns with
         | None => true
         | Some cols =>
             forallb (fun col =>
                        match col_elements col with
                        | Some es => forallb (complete readable) es
                        | None =>
                            match col_content col with
                            | Some es => forallb (complete readable) es
                            | None => true
                            end
                        end) cols
         end
  end.

(** *** Defaults written out *)

(** The table attributes with every default of [_renderTable] written
    out. *)
Definition defaultTable (this : Engine) (doc : Doc) (a : Attrs)
    : TableAttrs :=
  let t := el_table a in
  let fontSize := orQ (el_fontSize a) 10 in
  let pad := orQ (cellPadding t) 5 in
  mkTableAttrs
    (Some (tableHeaders a))
    (Some (tableRows a))
    (Some (match columnWidths t with
           | Some ws => ws
           | None => _autoColumnWidths doc (length (tableHeaders a))
           end))
    (Some (orS (headerFont t) "Helvetica-Bold"))
    (Some (orS (bodyFont t) (defaultFont this)))
    (Some (orS (headerBackground t) "#4472C4"))
    (Some (orS (headerColor t) "#FFFFFF"))
    (Some (orS (alternateRowBackground t) "#F2F2F2"))
    (Some pad)
    (Some (orQ (rowHeight t) (fontSize + pad * 2 + 4)))
    (Some (match gridLines t with Some false => false | _ => true end))
    (Some (orS (gridColor t) "#CCCCCC")).

(** [text]: the engine's font and size, black, the empty string. *)
Definition textDefaults (this : Engine) (a : Attrs) : Attrs :=
  mkAttrs (el_type a)
    (mkStyle
       (Some (orS (el_font a) (defaultFont this)))
       (Some (orQ (el_fontSize a) (defaultFontSize this)))
       (Some (orS (el_color a) "#000000"))
       (el_underline a)
       (el_width a))
    (Some (orS (el_value a) "")) (el_url a) (el_link a) (el_align a)
    (el_height a) (el_strike a) (el_oblique a) (el_indent a) (el_lineGap a)
    (el_continued a) (el_moveDown a) (el_level a) (el_stealth a) (el_x a)
    (el_y a) (el_lines a) (el_gap a) (el_items a) (el_ordered a)
    (el_table a) (el_src a) (el_fit a) (el_valign a) (el_spacing a)
    (el_thickness a) (el_fill a) (el_stroke a) (el_lineWidth a)
    (el_overlay a).

(** [heading]: level 1, the size of the level (18 beyond level 6), the
    bold face, black, the empty string, half a line below. *)
Definition headingDefaults (a : Attrs) : Attrs :=
  mkAttrs (el_type a)
    (mkStyle
       (Some (orS (el_font a) "Helvetica-Bold"))
       (Some (orQ (el_fontSize a) (orQ (sizeMap (orQ (el_level a) 1)) 18)))
       (Some (orS (el_color a) "#000000"))
       (el_underline a)
       (el_width a))
    (Some (orS (el_value a) "")) (el_url a) (el_link a) (el_align a)
    (el_height a) (el_strike a) (el_oblique a) (el_indent a) (el_lineGap a)
    (el_continued a) (Some (nullishQ (el_moveDown a) 0.5))
    (Some (orQ (el_level a) 1)) (el_stealth a) (el_x a) (el_y a)
    (el_lines a) (el_gap a) (el_items a) (el_ordered a) (el_table a)
    (el_src a) (el_fit a) (el_valign a) (el_spacing a) (el_thickness a)
    (el_fill a) (el_stroke a) (el_lineWidth a) (el_overlay a).

(** [link]: the engine's font and size; the link blue and the URL for a
    text, or in stealth mode black, no underline and the empty string. *)
Definition linkDefaults (this : Engine) (a : Attrs) : Attrs :=
  mkAttrs (el_type a)
    (mkStyle
       (Some (orS (el_font a) (defaultFont this)))
       (Some (orQ (el_fontSize a) (defaultFontSize this)))
       (Some (orS (el_color a)
                 (if truthyB (el_stealth a) then "#000000" else "#1a0dab")))
       (if truthyB (el_stealth a)
        then Some (nullishB (el_underline a) false)
        else el_underline a)
       (el_width a))
   
    (Some (orS (el_value a)
                 (if truthyB (el_stealth a) then ""
                  else match el_url a with Some u => u | None => "" end)))
    (el_url a) (el_link a) (el_align a) (el_height a) (el_strike a)
    (el_oblique a) (el_indent a) (el_lineGap a) (el_continued a)
    (el_moveDown a) (el_level a) (el_stealth a) (el_x a) (el_y a)
    (el_lines a) (el_gap a) (el_items a) (el_ordered a) (el_table a)
    (el_src a) (el_fit a) (el_valign a) (el_spacing a) (el_thickness a)
    (el_fill a) (el_stroke a) (el_lineWidth a) (el_overlay a).

(** [list]: the engine's font and size, black, no items, bullets, an
    indent of 15, half a line below. *)
Definition listDefaults (this : Engine) (a : Attrs) : Attrs :=
  mkAttrs (el_type a)
    (mkStyle
       (Some (orS (el_font a) (defaultFont this)))
       (Some (orQ (el_fontSize a) (defaultFontSize this)))
       (Some (orS (el_color a) "#000000"))
       (el_underline a)
       (el_width a))
    (el_value a) (el_url a) (el_link a) (el_align a) (el_height a)
    (el_strike a) (el_oblique a) (Some (orQ (el_indent a) 15))
    (el_lineGap a) (el_continued a) (Some (nullishQ (el_moveDown a) 0.5))
    (el_level a) (el_stealth a) (el_x a) (el_y a) (el_lines a) (el_gap a)
    (Some (match el_items a with Some l => l | None => [] end))
    (Some (truthyB (el_ordered a))) (el_table a) (el_src a) (el_fit a)
    (el_valign a) (el_spacing a) (el_thickness a) (el_fill a) (el_stroke a)
    (el_lineWidth a) (el_overlay a).

(** [table]: size 10, the cursor's horizontal position, and the table
    attributes of [defaultTable]. *)
Definition tableDefaults (this : Engine) (doc : Doc) (a : Attrs) : Attrs :=
  mkAttrs (el_type a)
    (mkStyle
       (el_font a)
       (Some (orQ (el_fontSize a) 10))
       (el_color a)
       (el_underline a)
       (el_width a))
    (el_value a) (el_url a) (el_link a) (el_align a) (el_height a)
    (el_strike a) (el_oblique a) (el_indent a) (el_lineGap a)
    (el_continued a) (el_moveDown a) (el_level a) (el_stealth a)
    (Some (orQ (el_x a) (doc_x doc))) (el_y a) (el_lines a) (el_gap a)
    (el_items a) (el_ordered a) (defaultTable this doc a) (el_src a)
    (el_fit a) (el_valign a) (el_spacing a) (el_thickness a) (el_fill a)
    (el_stroke a) (el_lineWidth a) (el_overlay a).

(** [divider]: from the left margin across the content width, light grey,
    1 point thick, 10 points to the next element. *)
Definition dividerDefaults (doc : Doc) (a : Attrs) : Attrs :=
  mkAttrs (el_type a)
    (mkStyle
       (el_font a)
       (el_fontSize a)
       (Some (orS (el_color a) "#CCCCCC"))
       (el_underline a)
       (Some (orQ (el_width a) (contentWidth doc))))
    (el_value a) (el_url a) (el_link a) (el_align a) (el_height a)
    (el_strike a) (el_oblique a) (el_indent a) (el_lineGap a)
    (el_continued a) (el_moveDown a) (el_level a) (el_stealth a)
    (Some (orQ (el_x a) (margin_left doc))) (el_y a) (el_lines a) (el_gap a)
    (el_items a) (el_ordered a) (el_table a) (el_src a) (el_fit a)
    (el_valign a) (Some (orQ (el_spacing a) 10))
    (Some (orQ (el_thickness a) 1)) (el_fill a) (el_stroke a)
    (el_lineWidth a) (el_overlay a).

(** [spacer]: one line. *)
Definition spacerDefaults (a : Attrs) : Attrs :=
  mkAttrs (el_type a)
    (mkStyle
       (el_font a)
       (el_fontSize a)
       (el_color a)
       (el_underline a)
       (el_width a))
    (el_value a) (el_url a) (el_link a) (el_align a) (el_height a)
    (el_strike a) (el_oblique a) (el_indent a) (el_lineGap a)
    (el_continued a) (el_moveDown a) (el_level a) (el_stealth a) (el_x a)
    (el_y a) (Some (orQ (el_lines a) 1)) (el_gap a) (el_items a)
    (el_ordered a) (el_table a) (el_src a) (el_fit a) (el_valign a)
    (el_spacing a) (el_thickness a) (el_fill a) (el_stroke a)
    (el_lineWidth a) (el_overlay a).

(** [columns]: a gap of 20. *)
Definition columnsDefaults (a : Attrs) : Attrs :=
  mkAttrs (el_type a)
    (mkStyle
       (el_font a)
       (el_fontSize a)
       (el_color a)
       (el_underline a)
       (el_width a))
    (el_value a) (el_url a) (el_link a) (el_align a) (el_height a)
    (el_strike a) (el_oblique a) (el_indent a) (el_lineGap a)
    (el_continued a) (el_moveDown a) (el_level a) (el_stealth a) (el_x a)
    (el_y a) (el_lines a) (Some (orQ (el_gap a) 20)) (el_items a)
    (el_ordered a) (el_table a) (el_src a) (el_fit a) (el_valign a)
    (el_spacing a) (el_thickness a) (el_fill a) (el_stroke a)
    (el_lineWidth a) (el_overlay a).

(** [rect]: a stroke 1 point wide. *)
Definition rectDefaults (a : Attrs) : Attrs :=
  mkAttrs (el_type a)
    (mkStyle
       (el_font a)
       (el_fontSize a)
       (el_color a)
       (el_underline a)
       (el_width a))
    (el_value a) (el_url a) (el_link a) (el_align a) (el_height a)
    (el_strike a) (el_oblique a) (el_indent a) (el_lineGap a)
    (el_continued a) (el_moveDown a) (el_level a) (el_stealth a) (el_x a)
    (el_y a) (el_lines a) (el_gap a) (el_items a) (el_ordered a)
    (el_table a) (el_src a) (el_fit a) (el_valign a) (el_spacing a)
    (el_thickness a) (el_fill a) (el_stroke a)
    (Some (orQ (el_lineWidth a) 1)) (el_overlay a).

(** [overlay]: 200 high, six bars in light grey, white at opacity 0.85, the
    label "Click to View" in the link blue at size 18. *)
Definition overlayDefaults (a : Attrs) : Attrs :=
  mkAttrs (el_type a)
    (mkStyle
       (el_font a)
       (el_fontSize a)
       (Some (orS (el_color a) "#FFFFFF"))
       (el_underline a)
       (el_width a))
    (el_value a) (el_url a) (el_link a) (el_align a)
    (Some (orQ (el_height a) 200)) (el_strike a) (el_oblique a)
    (el_indent a) (el_lineGap a) (el_continued a) (el_moveDown a)
    (el_level a) (el_stealth a) (el_x a) (el_y a)
    (Some (nullishQ (el_lines a) 6)) (el_gap a) (el_items a) (el_ordered a)
    (el_table a) (el_src a) (el_fit a) (el_valign a) (el_spacing a)
    (el_thickness a) (el_fill a) (el_stroke a) (el_lineWidth a)
    (mkOverlayAttrs
       (Some (nullishQ (opacity (el_overlay a)) 0.85))
       (Some (orS (label (el_overlay a)) "Click to View"))
       (Some (orS (labelColor (el_overlay a)) "#1a0dab"))
       (Some (orQ (labelSize (el_overlay a)) 18))
       (Some (orS (lineColor (el_overlay a)) "#E0E0E0")))
   .

(** [stealthLink]: the engine's font and size, black, the empty string. *)
Definition stealthDefaults (this : Engine) (a : Attrs) : Attrs :=
  mkAttrs (el_type a)
    (mkStyle
       (Some (orS (el_font a) (defaultFont this)))
       (Some (orQ (el_fontSize a) (defaultFontSize this)))
       (Some (orS (el_color a) "#000000"))
       (el_underline a)
       (el_width a))
    (Some (orS (el_value a) "")) (el_url a) (el_link a) (el_align a)
    (el_height a) (el_strike a) (el_oblique a) (el_indent a) (el_lineGap a)
    (el_continued a) (el_moveDown a) (el_level a) (el_stealth a) (el_x a)
    (el_y a) (el_lines a) (el_gap a) (el_items a) (el_ordered a)
    (el_table a) (el_src a) (el_fit a) (el_valign a) (el_spacing a)
    (el_thickness a) (el_fill a) (el_stroke a) (el_lineWidth a)
    (el_overlay a).

(** An element with every default of its renderer written out; an image
    and a page break have none. *)
Definition withDefaults (this : Engine) (doc : Doc) (a : Attrs) : Attrs :=
  let type := el_type a in
  if String.eqb type "text" then textDefaults this a
  else if String.eqb type "heading" then headingDefaults a
  else if String.eqb type "link" then linkDefaults this a
  else if String.eqb type "list" then listDefaults this a
  else if String.eqb type "table" then tableDefaults this doc a
  else if String.eqb type "divider" then dividerDefaults doc a
  else if String.eqb type "spacer" then spacerDefaults a
  else if String.eqb type "columns" then columnsDefaults a
  else if String.eqb type "rect" then rectDefaults a
  else if String.eqb type "overlay" then overlayDefaults a
  else if String.eqb type "stealthLink" then stealthDefaults this a
  else a.

(* ------------------------------------------------------------------ *)
(** ** Facts about numbers and loops                                    *)
(* ------------------------------------------------------------------ *)

Lemma gtb_false_le (a b : Q) : gtb a b = false -> a <= b.
Proof.
  unfold gtb. intros H. apply Qle_bool_iff.
  now destruct (Qle_bool a b).
Qed.

Lemma gtb_true_lt (a b : Q) : gtb a b = true -> b < a.
Proof.
  unfold gtb. intros H. apply Qnot_le_lt. intros Hle.
  apply Qle_bool_iff in Hle. rewrite Hle in H. discriminate H.
Qed.

Lemma le_gtb_false (a b : Q) : a <= b -> gtb a b = false.
Proof.
  intros H. unfold gtb. apply Qle_bool_iff in H. now rewrite H.
Qed.

Lemma lt_gtb_true (a b : Q) : b < a -> gtb a b = true.
Proof.
  intros H. unfold gtb. destruct (Qle_bool a b) eqn:E; [ | reflexivity].
  apply Qle_bool_iff in E. exfalso. apply (Qlt_not_le _ _ H E).
Qed.

Lemma mod2_odd (n : nat) : Nat.eqb (n mod 2) 1 = Nat.odd n.
Proof.
  rewrite <- Nat.bit0_mod, Nat.bit0_odd. now destruct (Nat.odd n).
Qed.

(** Writing a default out changes nothing: [(o || d) || d] is [o || d]. *)
Lemma orS_idem (o : option string) (d : string) :
  orS (Some (orS o d)) d = orS o d.
Proof.
  unfold orS. destruct o as [s | ].
  - destruct (String.eqb s "") eqn:E.
    + now destruct (String.eqb d "").
    + now rewrite E.
  - now destruct (String.eqb d "").
Qed.

Lemma orQ_idem (o : option Q) (d : Q) : orQ (Some (orQ o d)) d = orQ o d.
Proof.
  unfold orQ. destruct o as [q | ].
  - destruct (Qeq_bool q 0) eqn:E.
    + now destruct (Qeq_bool d 0).
    + now rewrite E.
  - now destruct (Qeq_bool d 0).
Qed.

Section LoopFacts.
Context {A St : Type}.

Lemma bind_Ok_inv {X Y : Type} (m : Outcome X) (k : X -> Outcome Y) (y : Y) :
  bind m k = Ok y -> exists x, m = Ok x /\ k x = Ok y.
Proof.
  destruct m as [x | e | ]; simpl; intros H; try discriminate.
  exists x; split; [reflexivity | exact H].
Qed.

Lemma forEach_app (f : St -> A -> Outcome St) (l1 l2 : list A) (s : St) :
  forEach f (l1 ++ l2) s = bind (forEach f l1 s) (forEach f l2).
Proof.
  revert s; induction l1 as [| a l1 IH]; intros s; simpl.
  - reflexivity.
  - destruct (f s a) as [s1 | e | ]; simpl; auto.
Qed.

Lemma forEach_ext (f g : St -> A -> Outcome St) (l : list A) :
  (forall s a, f s a = g s a) -> forall s, forEach f l s = forEach g l s.
Proof.
  intros Hfg. induction l as [| a l IH]; intros s; simpl; [reflexivity | ].
  rewrite Hfg. destruct (g s a); simpl; auto.
Qed.

Lemma forEachIdx_ext (f g : nat -> St -> A -> Outcome St) (l : list A) :
  (forall i s a, f i s a = g i s a) ->
  forall i s, forEachIdx f i l s = forEachIdx g i l s.
Proof.
  intros Hfg. induction l as [| a l IH]; intros i s; simpl; [reflexivity | ].
  rewrite Hfg. destruct (g i s a); simpl; auto.
Qed.

Lemma forEachIdx_app (f : nat -> St -> A -> Outcome St) (l1 l2 : list A) :
  forall (i : nat) (s : St),
    forEachIdx f i (l1 ++ l2) s
    = bind (forEachIdx f i l1 s) (forEachIdx f (i + length l1)%nat l2).
Proof.
  induction l1 as [| a l1 IH]; intros i s; simpl.
  - now rewrite Nat.add_0_r.
  - destruct (f i s a) as [s1 | e | ]; simpl; auto.
    rewrite IH. now replace (S i + length l1)%nat with (i + S (length l1))%nat by lia.
Qed.

(** A loop that ran to completion passed through every index: the state
    before the [k]-th iteration is the result of the loop over the first
    [k] entries. *)
Lemma forEachIdx_nth (f : nat -> St -> A -> Outcome St) (l : list A) :
  forall (i k : nat) (s s' : St) (a : A),
    forEachIdx f i l s = Ok s' ->
    nth_error l k = Some a ->
    exists sk sk',
      forEachIdx f i (firstn k l) s = Ok sk /\
      f (i + k)%nat sk a = Ok sk' /\
      forEachIdx f i (firstn (S k) l) s = Ok sk' /\
      forEachIdx f (S (i + k)) (skipn (S k) l) sk' = Ok s'.
Proof.
  induction l as [| b l IH]; intros i k s s' a Hrun Hk.
  - destruct k; discriminate.
  - simpl in Hrun. apply bind_Ok_inv in Hrun as (s1 & Hb & Hrest).
    destruct k as [| k]; simpl in Hk.
    + injection Hk as ->. exists s, s1. rewrite Nat.add_0_r.
      simpl. rewrite Hb. simpl. auto.
    + destruct (IH (S i) k s1 s' a Hrest Hk) as (sk & sk' & H1 & H2 & H3 & H4).
      exists sk, sk'. cbn [firstn forEachIdx skipn]. rewrite Hb.
      cbn [bind].
      replace (i + S k)%nat with (S i + k)%nat by lia. auto.
Qed.

(** A loop whose body always succeeds runs to completion. *)
Lemma forEachIdx_total (g : nat -> St -> A -> St) (l : list A) :
  forall (i : nat) (s : St),
    exists s', forEachIdx (fun i s a => Ok (g i s a)) i l s = Ok s'.
Proof.
  induction l as [| a l IH]; intros i s; simpl.
  - now exists s.
  - apply IH.
Qed.

Lemma forEachIdx_total_in (f : nat -> St -> A -> Outcome St) (l : list A) :
  (forall i s a, In a l -> exists s', f i s a = Ok s') ->
  forall i s, exists s', forEachIdx f i l s = Ok s'.
Proof.
  induction l as [| a l IH]; intros Hf i s; simpl; [eauto | ].
  destruct (Hf i s a (or_introl eq_refl)) as (s1 & ->). simpl.
  apply IH. intros j t b Hb. apply Hf. now right.
Qed.

Lemma forEach_total_in (f : St -> A -> Outcome St) (l : list A) :
  (forall s a, In a l -> exists s', f s a = Ok s') ->
  forall s, exists s', forEach f l s = Ok s'.
Proof.
  induction l as [| a l IH]; intros Hf s; simpl; [eauto | ].
  destruct (Hf s a (or_introl eq_refl)) as (s1 & ->). simpl.
  apply IH. intros t b Hb. apply Hf. now right.
Qed.

(** An invariant of the loop body is an invariant of the loop. *)
Lemma forEachIdx_invariant (f : nat -> St -> A -> Outcome St)
    (Inv : St -> Prop) (l : list A) :
  (forall i s a s', In a l -> Inv s -> f i s a = Ok s' -> Inv s') ->
  forall (i : nat) (s s' : St),
    Inv s -> forEachIdx f i l s = Ok s' -> Inv s'.
Proof.
  induction l as [| a l IH]; intros Hstep i s s' Hs Hrun; simpl in Hrun.
  - now injection Hrun as <-.
  - apply bind_Ok_inv in Hrun as (s1 & Ha & Hrest).
    eapply IH; [ | | exact Hrest].
    + intros j t b t' Hb. apply Hstep. now right.
    + eapply Hstep; [now left | exact Hs | exact Ha].
Qed.

Lemma forEach_invariant (f : St -> A -> Outcome St)
    (Inv : St -> Prop) (l : list A) :
  (forall s a s', In a l -> Inv s -> f s a = Ok s' -> Inv s') ->
  forall (s s' : St), Inv s -> forEach f l s = Ok s' -> Inv s'.
Proof.
  induction l as [| a l IH]; intros Hstep s s' Hs Hrun; simpl in Hrun.
  - now injection Hrun as <-.
  - apply bind_Ok_inv in Hrun as (s1 & Ha & Hrest).
    eapply IH; [ | | exact Hrest].
    + intros t b t' Hb. apply Hstep. now right.
    + eapply Hstep; [now left | exact Hs | exact Ha].
Qed.
End LoopFacts.

(* ------------------------------------------------------------------ *)
(** ** How the drawing layer grows a document                           *)
(* ------------------------------------------------------------------ *)

Lemma sameGeometry_refl (d : Doc) : sameGeometry d d.
Proof. unfold sameGeometry; tauto. Qed.

Lemma sameGeometry_trans (d1 d2 d3 : Doc) :
  sameGeometry d1 d2 -> sameGeometry d2 d3 -> sameGeometry d1 d3.
Proof. unfold sameGeometry; intuition congruence. Qed.

Lemma sameGeometry_pageBottom (d d' : Doc) :
  sameGeometry d d' -> pageBottom d' = pageBottom d.
Proof. unfold sameGeometry, pageBottom. now intros (_ & -> & _ & -> & _). Qed.

Lemma sameGeometry_contentWidth (d d' : Doc) :
  sameGeometry d d' -> contentWidth d' = contentWidth d.
Proof.
  unfold sameGeometry, contentWidth. now intros (-> & _ & _ & _ & -> & ->).
Qed.

Section Growth.
Variable P : Prim -> bool.

Lemma continuesWith_refl (d : Doc) : continuesWith P d d.
Proof.
  split; [apply sameGeometry_refl | split; [lia | ]].
  exists []. now rewrite app_nil_r.
Qed.

Lemma continuesWith_trans (d1 d2 d3 : Doc) :
  continuesWith P d1 d2 -> continuesWith P d2 d3 -> continuesWith P d1 d3.
Proof.
  intros (G1 & C1 & p1 & H1 & N1) (G2 & C2 & p2 & H2 & N2).
  split; [eapply sameGeometry_trans; eassumption | split; [lia | ]].
  exists (p1 ++ p2). rewrite H2, H1, <- app_assoc, forallb_app, N1, N2. auto.
Qed.

(** A step that draws nothing. *)
Lemma continuesWith_quiet (d d' : Doc) :
  sameGeometry d d' -> (page_count d <= page_count d')%nat ->
  out d' = out d -> continuesWith P d d'.
Proof.
  intros G C H. split; [exact G | split; [exact C | ]].
  exists []. now rewrite app_nil_r.
Qed.

(** A step that draws one primitive. *)
Lemma continuesWith_one (d d' : Doc) (p : Prim) :
  sameGeometry d d' -> (page_count d <= page_count d')%nat ->
  out d' = out d ++ [p] -> P p = true -> continuesWith P d d'.
Proof.
  intros G C H Hp. split; [exact G | split; [exact C | ]].
  exists [p]. split; [exact H | simpl; now rewrite Hp].
Qed.

Lemma continuesWith_out (d d' : Doc) :
  continuesWith P d d' -> exists prims, out d' = out d ++ prims.
Proof. intros (_ & _ & prims & H & _). now exists prims. Qed.

End Growth.

Lemma continuesWith_any (P : Prim -> bool) (d d' : Doc) :
  continuesWith P d d' -> continuesWith anyPrim d d'.
Proof.
  intros (G & C & prims & H & _). split; [exact G | split; [exact C | ]].
  exists prims. split; [exact H | ]. now apply forallb_forall.
Qed.

Section TextFlow.
Variable B : Backend.

Lemma flowKeeps_refl (d : Doc) : flowKeeps d d.
Proof. unfold flowKeeps, sameGeometry. repeat split; auto. Qed.

Lemma flowKeeps_trans (d1 d2 d3 : Doc) :
  flowKeeps d1 d2 -> flowKeeps d2 d3 -> flowKeeps d1 d3.
Proof.
  unfold flowKeeps. intros (G1 & C1 & O1 & F1 & N1 & S1) (G2 & C2 & O2 & F2 & N2 & S2).
  split; [eapply sameGeometry_trans; eassumption | ].
  split; [lia | ]. repeat split; congruence.
Qed.

Lemma flowKeeps_nextSection (x : Q) (d : Doc) : flowKeeps d (nextSection x d).
Proof. unfold flowKeeps, sameGeometry. simpl. repeat split; auto. Qed.

Lemma flowKeeps_setXY (x y : Q) (d : Doc) : flowKeeps d (setXY x y d).
Proof. unfold flowKeeps, sameGeometry. simpl. repeat split; auto. Qed.

Lemma flowKeeps_textStart (o : TextOpts) (d : Doc) :
  flowKeeps d (textStart B o d).
Proof.
  unfold textStart. destruct (startsPage B o d);
    [apply flowKeeps_nextSection | apply flowKeeps_refl].
Qed.

Lemma flowKeeps_lineStep (lh gap x : Q) (d : Doc) (y : Q) (b : bool) :
  flowKeeps d (fst (lineStep lh gap x (d, y) b)).
Proof.
  unfold lineStep. cbn [fst].
  destruct (b && gtb (doc_y (setY (doc_y d + lh + gap) d) + lh)
                     (pageBottom (setY (doc_y d + lh + gap) d))).
  - eapply flowKeeps_trans; [apply flowKeeps_setXY | apply flowKeeps_nextSection].
  - apply flowKeeps_setXY.
Qed.

Lemma flowKeeps_fold (lh gap x : Q) (lines : list bool) :
  forall st, flowKeeps (fst st)
               (fst (fold_left (lineStep lh gap x) lines st)).
Proof.
  induction lines as [| b lines IH]; intros [d y]; cbn [fold_left].
  - apply flowKeeps_refl.
  - eapply flowKeeps_trans; [apply (flowKeeps_lineStep lh gap x d y b) | ].
    destruct (lineStep lh gap x (d, y) b) as [d1 y1] eqn:E. apply IH.
Qed.

Lemma flowKeeps_flow (lh gap x : Q) (lines : list bool) (d : Doc) :
  flowKeeps d (fst (flow lh gap x lines d)).
Proof. apply (flowKeeps_fold lh gap x lines (d, doc_y d)). Qed.

(** The one entry that a text call adds to [out]. *)
Lemma text_out (t : string) (o : TextOpts) (d : Doc) :
  out (text B t o d) = out d ++ [textPrim B t o d].
Proof.
  unfold text, textPrim.
  destruct (flowKeeps_textStart o d) as (_ & _ & Ho & _).
  destruct (Qeq_bool (wrapWidth o d) 0).
  - simpl. now rewrite Ho.
  - match goal with
    | |- context [flow ?lh ?gap ?x ?lines ?d0] =>
        pose proof (flowKeeps_flow lh gap x lines d0) as (_ & _ & Hf & _);
        destruct (flow lh gap x lines d0) as [d1 y1]
    end.
    cbn [fst] in Hf.
    destruct (truthyB (o_continued o)); simpl; rewrite Hf; simpl; now rewrite Ho.
Qed.

Lemma text_keeps (t : string) (o : TextOpts) (d : Doc) :
  sameGeometry d (text B t o d) /\
  (page_count d <= page_count (text B t o d))%nat /\
  (page_count (textStart B o d) <= page_count (text B t o d))%nat.
Proof.
  unfold text.
  destruct (flowKeeps_textStart o d) as (G0 & C0 & _).
  destruct (Qeq_bool (wrapWidth o d) 0).
  - simpl. split; [exact G0 | split; [exact C0 | lia]].
  - match goal with
    | |- context [flow ?lh ?gap ?x ?lines ?d0] =>
        pose proof (flowKeeps_flow lh gap x lines d0) as (G1 & C1 & _);
        destruct (flow lh gap x lines d0) as [d1 y1]
    end.
    cbn [fst] in G1, C1.
    assert (G : sameGeometry d d1).
    { eapply sameGeometry_trans; [exact G0 | ]. exact G1. }
    simpl in C1.
    destruct (truthyB (o_continued o)); simpl; (split; [exact G | split; lia]).
Qed.

(** Where a text call begins. *)
Lemma textPrim_here (t : string) (o : TextOpts) (d : Doc) :
  startsPage B o d = false ->
  textPrim B t o d
  = PText (cur_page d) (cur_font d) (cur_size d) (fill_color d) t
          (doc_x d) (doc_y d) o.
Proof. unfold textPrim, textStart. now intros ->. Qed.

Lemma textPrim_over (t : string) (o : TextOpts) (d : Doc) :
  startsPage B o d = true ->
  textPrim B t o d
  = PText (page_count d) (cur_font d) (cur_size d) (fill_color d) t
          (doc_x d) (margin_top d) o.
Proof. unfold textPrim, textStart. now intros ->. Qed.

Lemma text_continues (P : Prim -> bool) (t : string) (o : TextOpts) (d : Doc) :
  (forall pg f s c x y, P (PText pg f s c t x y o) = true) ->
  continuesWith P d (text B t o d).
Proof.
  intros HP. destruct (text_keeps t o d) as (G & C & _).
  eapply continuesWith_one; [exact G | exact C | apply text_out | apply HP].
Qed.

End TextFlow.

Section OpsGrow.
Variable B : Backend.
Variable P : Prim -> bool.
Variable d0 : Doc.

Lemma cw_setXY (x y : Q) (d : Doc) :
  continuesWith P d0 d -> continuesWith P d0 (setXY x y d).
Proof.
  intros H. eapply continuesWith_trans; [exact H | ].
  apply continuesWith_quiet; [unfold sameGeometry; simpl; tauto | simpl; lia | reflexivity].
Qed.

Lemma cw_setFont (f : string) (s : Q) (c : string) (d : Doc) :
  continuesWith P d0 d -> continuesWith P d0 (setFont f s c d).
Proof.
  intros H. eapply continuesWith_trans; [exact H | ].
  apply continuesWith_quiet; [unfold sameGeometry; simpl; tauto | simpl; lia | reflexivity].
Qed.

Lemma cw_fillColor (c : string) (d : Doc) :
  continuesWith P d0 d -> continuesWith P d0 (fillColor c d).
Proof. apply cw_setFont. Qed.

Lemma cw_setStroke (c : string) (w : Q) (d : Doc) :
  continuesWith P d0 d -> continuesWith P d0 (setStroke c w d).
Proof.
  intros H. eapply continuesWith_trans; [exact H | ].
  apply continuesWith_quiet; [unfold sameGeometry; simpl; tauto | simpl; lia | reflexivity].
Qed.

Lemma cw_tickRandom (d : Doc) :
  continuesWith P d0 d -> continuesWith P d0 (tickRandom d).
Proof.
  intros H. eapply continuesWith_trans; [exact H | ].
  apply continuesWith_quiet; [unfold sameGeometry; simpl; tauto | simpl; lia | reflexivity].
Qed.

Lemma cw_moveDown (n : Q) (d : Doc) :
  continuesWith P d0 d -> continuesWith P d0 (moveDown B n d).
Proof. apply cw_setXY. Qed.

Lemma cw_emit (p : Prim) (d : Doc) :
  P p = true -> continuesWith P d0 d -> continuesWith P d0 (emit p d).
Proof.
  intros Hp H. eapply continuesWith_trans; [exact H | ].
  eapply continuesWith_one;
    [unfold sameGeometry; simpl; tauto | simpl; lia | reflexivity | exact Hp].
Qed.

Lemma cw_addPage (d : Doc) :
  P (PNewPage (page_count d)) = true ->
  continuesWith P d0 d -> continuesWith P d0 (addPage d).
Proof.
  intros Hp H. eapply continuesWith_trans; [exact H | ].
  eapply continuesWith_one;
    [unfold sameGeometry; simpl; tauto | simpl; lia | reflexivity | exact Hp].
Qed.

Lemma cw_text (t : string) (o : TextOpts) (d : Doc) :
  (forall pg f s c x y, P (PText pg f s c t x y o) = true) ->
  continuesWith P d0 d -> continuesWith P d0 (text B t o d).
Proof.
  intros Hp H. eapply continuesWith_trans; [exact H | ].
  now apply text_continues.
Qed.

Lemma cw_textAt (t : string) (x y : Q) (o : TextOpts) (d : Doc) :
  (forall pg f s c x' y', P (PText pg f s c t x' y' o) = true) ->
  continuesWith P d0 d -> continuesWith P d0 (textAt B t x y o d).
Proof. intros Hp H. unfold textAt. apply cw_text; [exact Hp | now apply cw_setXY]. Qed.

Lemma cw_moveDownIfSet (el : Attrs) (d : Doc) :
  continuesWith P d0 d -> continuesWith P d0 (moveDownIfSet B el d).
Proof.
  intros H. unfold moveDownIfSet.
  destruct (truthyQ (el_moveDown el)); [now apply cw_moveDown | exact H].
Qed.

End OpsGrow.

(** *** The renderers only add to a document *)

Section RenderersGrow.
Variable B : Backend.
Variable this : Engine.

Ltac any := first [reflexivity | intros; reflexivity].

Lemma renderText_grows (d : Doc) (el : Attrs) :
  continuesWith anyPrim d (_renderText B this d el).
Proof.
  unfold _renderText, _applyFont.
  apply cw_moveDownIfSet, cw_text; [any | ].
  apply cw_setFont, continuesWith_refl.
Qed.

Lemma renderHeading_grows (d : Doc) (el : Attrs) :
  continuesWith anyPrim d (_renderHeading B this d el).
Proof.
  unfold _renderHeading, _applyFont.
  apply cw_moveDown, cw_text; [any | ].
  apply cw_setFont, continuesWith_refl.
Qed.

Lemma renderStealthLink_grows (d : Doc) (el : Attrs) :
  continuesWith anyPrim d (_renderStealthLink B this d el).
Proof.
  unfold _renderStealthLink. apply cw_moveDownIfSet.
  destruct (keepS (el_url el)).
  - unfold link. apply cw_emit; [any | ].
    apply cw_text; [any | ]. apply cw_setFont, continuesWith_refl.
  - apply cw_text; [any | ]. apply cw_setFont, continuesWith_refl.
Qed.

Lemma renderLink_grows (d : Doc) (el : Attrs) (d' : Doc) :
  _renderLink B this d el = Ok d' -> continuesWith anyPrim d d'.
Proof.
  unfold _renderLink. destruct (truthyB (el_stealth el)); intros H;
    injection H as <-.
  - apply renderStealthLink_grows.
  - apply cw_moveDownIfSet, cw_fillColor, cw_text; [any | ].
    apply cw_setFont, continuesWith_refl.
Qed.

Lemma listItem_grows (el : Attrs) (ordered : bool) (indent : Q) (i : nat)
    (d0 d : Doc) (item : Item) (d' : Doc) :
  continuesWith anyPrim d0 d ->
  listItem B el ordered indent i d item = Ok d' ->
  continuesWith anyPrim d0 d'.
Proof.
  intros H. unfold listItem.
  destruct item as [s | t l | ]; intros E; try discriminate E;
    injection E as <-; (apply cw_text; [any | exact H]).
Qed.

Lemma renderList_grows (d : Doc) (el : Attrs) (d' : Doc) :
  _renderList B this d el = Ok d' -> continuesWith anyPrim d d'.
Proof.
  unfold _renderList. intros H.
  apply bind_Ok_inv in H as (d1 & Hloop & H). injection H as <-.
  apply cw_moveDown.
  revert Hloop.
  apply (forEachIdx_invariant _ (fun s => continuesWith anyPrim d s)).
  - intros i s a s' _ Hs Hstep. eapply listItem_grows; eassumption.
  - unfold _applyFont. apply cw_setFont, continuesWith_refl.
Qed.

Lemma renderDivider_grows (d : Doc) (el : Attrs) :
  continuesWith anyPrim d (_renderDivider d el).
Proof.
  unfold _renderDivider, setY, strokeLine.
  apply cw_setXY, cw_emit; [any | ].
  apply cw_setStroke, continuesWith_refl.
Qed.

Lemma renderSpacer_grows (d : Doc) (el : Attrs) :
  continuesWith anyPrim d (_renderSpacer B d el).
Proof. unfold _renderSpacer. apply cw_moveDown, continuesWith_refl. Qed.

Lemma withBox_grows (d0 : Doc) (el : Attrs) (k : Q -> Q -> Q -> Q -> Doc)
    (d' : Doc) :
  (forall x y w h, continuesWith anyPrim d0 (k x y w h)) ->
  withBox el k = Ok d' -> continuesWith anyPrim d0 d'.
Proof.
  intros Hk. unfold withBox.
  destruct (rectBox el) as [[[[x y] w] h] | ]; intros E; try discriminate E.
  injection E as <-. apply Hk.
Qed.

Lemma renderRect_grows (d : Doc) (el : Attrs) (d' : Doc) :
  _renderRect d el = Ok d' -> continuesWith anyPrim d d'.
Proof.
  unfold _renderRect. intros H.
  apply bind_Ok_inv in H as (d1 & H1 & H).
  apply bind_Ok_inv in H as (d2 & H2 & H).
  assert (G1 : continuesWith anyPrim d d1).
  { destruct (keepS (el_fill el)).
    - eapply withBox_grows; [ | exact H1]. intros x y w h.
      unfold fillRect. apply cw_emit; [any | apply continuesWith_refl].
    - injection H1 as <-. apply continuesWith_refl. }
  assert (G2 : continuesWith anyPrim d d2).
  { destruct (keepS (el_stroke el)).
    - eapply withBox_grows; [ | exact H2]. intros x y w h.
      unfold strokeRect. apply cw_emit; [any | ]. now apply cw_setStroke.
    - injection H2 as <-. exact G1. }
  destruct (keepS (el_link el)).
  - eapply withBox_grows; [ | exact H]. intros x y w h.
    unfold link. apply cw_emit; [any | exact G2].
  - injection H as <-. exact G2.
Qed.

Lemma renderImage_grows (d : Doc) (el : Attrs) (d' : Doc) :
  _renderImage B d el = Ok d' -> continuesWith anyPrim d d'.
Proof.
  unfold _renderImage. destruct (el_src el) as [src | ]; [ | discriminate].
  intros H. apply bind_Ok_inv in H as (d1 & Himg & H). injection H as <-.
  apply cw_moveDownIfSet.
  assert (G1 : continuesWith anyPrim d d1).
  { unfold image in Himg.
    destruct (imageHeight B src _) as [h | ]; [ | discriminate Himg].
    match type of Himg with
    | context [match ?pos with Some p => p | None => _ end] =>
        destruct (match pos with Some p => p | None => (doc_x d, doc_y d) end)
          as [x y]
    end.
    injection Himg as <-.
    destruct (Qeq_bool (doc_y d) y).
    - unfold setY. apply cw_setXY, cw_emit; [any | apply continuesWith_refl].
    - apply cw_emit; [any | apply continuesWith_refl]. }
  destruct (keepS (el_link el)); [ | exact G1].
  unfold link. apply cw_emit; [any | exact G1].
Qed.

Lemma overlayLines_grow (P : Prim -> bool) (lm sy lg cw : Q) (c : string)
    (l : list nat) :
  (forall pg x y w h, P (PFillRect pg x y w h c 1) = true) ->
  forall d0 d, continuesWith P d0 d ->
    continuesWith P d0 (fold_left (overlayLine B lm sy lg cw c) l d).
Proof.
  intros HP. induction l as [| i l IH]; intros d0 d H; cbn [fold_left].
  - exact H.
  - apply IH. unfold overlayLine, fillRect.
    apply cw_emit; [apply HP | now apply cw_tickRandom].
Qed.

Lemma renderOverlay_grows (d : Doc) (el : Attrs) :
  continuesWith anyPrim d (_renderOverlay B d el).
Proof.
  unfold _renderOverlay.
  match goal with
  | |- context [fold_left (overlayLine B ?lm ?sy ?lg ?cw ?c) ?l d] =>
      pose proof (overlayLines_grow anyPrim lm sy lg cw c l
                    (fun _ _ _ _ _ => eq_refl) d d (continuesWith_refl _ d))
        as H0;
      set (d1 := fold_left (overlayLine B lm sy lg cw c) l d) in *
  end.
  clearbody d1.
  apply cw_setXY, cw_fillColor.
  destruct (keepS (el_url el)).
  - unfold link. apply cw_emit; [any | ].
    apply cw_textAt; [any | ]. apply cw_setFont.
    unfold fillRect. apply cw_emit; [any | exact H0].
  - apply cw_textAt; [any | ]. apply cw_setFont.
    unfold fillRect. apply cw_emit; [any | exact H0].
Qed.

End RenderersGrow.

(* ------------------------------------------------------------------ *)
(** ** Tables: the run of [_renderTable]                                *)
(* ------------------------------------------------------------------ *)

Lemma continuesWith_weaken (P R : Prim -> bool) (d d' : Doc) :
  (forall p, P p = true -> R p = true) ->
  continuesWith P d d' -> continuesWith R d d'.
Proof.
  intros HPR (G & C & prims & H & N). split; [exact G | split; [exact C | ]].
  exists prims. split; [exact H | ].
  rewrite forallb_forall in *. auto.
Qed.

Lemma isText_notLink (p : Prim) : isText p = true -> notLink p = true.
Proof. now destruct p. Qed.

Lemma isText_no_fill (prims : list Prim) :
  forallb isText prims = true ->
  filter isFillRect prims = [] /\ existsb isFillRect prims = false /\
  existsb isNewPage prims = false.
Proof.
  induction prims as [| p prims IH]; simpl; [auto | ].
  intros H. apply andb_prop in H as (Hp & Hr).
  destruct (IH Hr) as (-> & -> & ->). now destruct p.
Qed.

Section TableCells.
Variable B : Backend.
Variable L : TableLayout.

Lemma bodyCell_out (y : Q) (ci : nat) (doc : Doc) (x : Q) (cell : Cell) :
  out (fst (bodyCell B L y ci (doc, x) cell))
  = out doc ++ [cellPrim B L y ci x cell doc].
Proof.
  unfold bodyCell, cellPrim, cellReady, cellText, cellOpts, cellColor, textAt.
  destruct cell as [ | | s | t l c]; cbn [fst cellLink cellString];
    try (rewrite text_out; reflexivity).
  destruct (keepS l); cbn [fst]; [ | rewrite text_out; reflexivity].
  unfold fillColor at 1. cbn [out setFont]. rewrite text_out. reflexivity.
Qed.

Lemma bodyCell_advance (y : Q) (ci : nat) (doc : Doc) (x : Q) (cell : Cell) :
  snd (bodyCell B L y ci (doc, x) cell) = x + cellWidth L ci.
Proof. reflexivity. Qed.

Lemma bodyCell_grows (d0 : Doc) (y : Q) (ci : nat) (doc : Doc) (x : Q)
    (cell : Cell) :
  continuesWith isText d0 doc ->
  continuesWith isText d0 (fst (bodyCell B L y ci (doc, x) cell)).
Proof.
  intros H. unfold bodyCell.
  destruct cell as [ | | s | t l c]; cbn [fst cellLink];
    try (apply cw_textAt; [intros; reflexivity | now apply cw_setFont]).
  destruct (keepS l); cbn [fst].
  - apply cw_fillColor, cw_textAt; [intros; reflexivity | ].
    now apply cw_fillColor, cw_setFont.
  - apply cw_textAt; [intros; reflexivity | now apply cw_setFont].
Qed.

Lemma cellLoop_grows (y : Q) (cells : list Cell) :
  forall ci st st',
    cellLoop B L y ci cells st = Ok st' ->
    continuesWith isText (fst st) (fst st').
Proof.
  intros ci st st' H.
  apply (forEachIdx_invariant
           (fun ci st cell => Ok (bodyCell B L y ci st cell))
           (fun s => continuesWith isText (fst st) (fst s))
           cells) with (i := ci) (s := st);
    [ | apply continuesWith_refl | exact H].
  intros i [d x] cell s' _ Hinv Hstep. injection Hstep as <-.
  now apply bodyCell_grows.
Qed.

(** The cell loop reaches cell [k] at the left edge of that cell. *)
Lemma cellLoop_edge (y : Q) (cells : list Cell) :
  forall ci d d' x',
    cellLoop B L y ci cells (d, cellX L ci) = Ok (d', x') ->
    x' = cellX L (ci + length cells).
Proof.
  induction cells as [| c cs IH]; intros ci d d' x' H.
  - injection H as <- <-. now rewrite Nat.add_0_r.
  - unfold cellLoop in H. cbn [forEachIdx bind] in H.
    pose proof (bodyCell_advance y ci d (cellX L ci) c) as Hx.
    destruct (bodyCell B L y ci (d, cellX L ci) c) as [d1 x1].
    cbn [snd] in Hx. subst x1.
    change (cellX L ci + cellWidth L ci) with (cellX L (S ci)) in H.
    apply IH in H. rewrite H. f_equal. simpl. lia.
Qed.

Lemma cellLoop_total (y : Q) (cells : list Cell) (ci : nat) (st : Doc * Q) :
  exists st', cellLoop B L y ci cells st = Ok st'.
Proof. apply forEachIdx_total. Qed.

(** The place of cell [ci] in what the cell loop draws. *)
Lemma cellLoop_cell (y : Q) (cells : list Cell) (d d' : Doc) (x' : Q)
    (ci : nat) (cell : Cell) :
  cellLoop B L y 0 cells (d, tl_startX L) = Ok (d', x') ->
  nth_error cells ci = Some cell ->
  exists dc,
    cellLoop B L y 0 (firstn ci cells) (d, tl_startX L)
    = Ok (dc, cellX L ci) /\
    continuesWith isText d dc /\
    exists after,
      out d' = out dc ++ cellPrim B L y ci (cellX L ci) cell dc :: after /\
      forallb isText after = true.
Proof.
  intros Hrun Hci. unfold cellLoop in *.
  destruct (forEachIdx_nth _ _ 0%nat ci _ _ cell Hrun Hci)
    as ([dc xc] & [dc1 xc1] & Hpre & Hstep & _ & Hpost).
  cbn [Nat.add] in Hstep, Hpost.
  assert (Hxc : xc = cellX L ci).
  { pose proof (cellLoop_edge y (firstn ci cells) 0 d dc xc Hpre) as E.
    rewrite E. cbn [Nat.add]. f_equal. apply firstn_length_le.
    apply Nat.lt_le_incl. apply nth_error_Some. now rewrite Hci. }
  subst xc. exists dc. split; [exact Hpre | ].
  split; [exact (cellLoop_grows y _ _ _ _ Hpre) | ].
  assert (Hcell : bodyCell B L y ci (dc, cellX L ci) cell = (dc1, xc1))
    by congruence.
  destruct (cellLoop_grows y _ _ _ _ Hpost) as (_ & _ & after & Ho & Na).
  cbn [fst] in Ho. exists after. split; [ | exact Na].
  rewrite Ho.
  assert (E : out dc1 = out dc ++ [cellPrim B L y ci (cellX L ci) cell dc]).
  { pose proof (bodyCell_out y ci dc (cellX L ci) cell) as E.
    now rewrite Hcell in E. }
  rewrite E, <- app_assoc. reflexivity.
Qed.

End TableCells.

Section TableRows.
Variable B : Backend.
Variable this : Engine.
Variable L : TableLayout.

Lemma rowStart_out (ri : nat) (d : Doc) (y : Q) :
  out (rowStart L ri d y) = out d ++ rowLead L ri d y.
Proof.
  unfold rowStart, rowBreak, rowLead, rowBackground, rowPage, rowTop.
  rewrite mod2_odd.
  destruct (needsNewPage L d y), (Nat.odd ri); simpl;
    rewrite <- ?app_assoc, ?app_nil_r; reflexivity.
Qed.

Lemma rowStart_grows (ri : nat) (d : Doc) (y : Q) :
  continuesWith notLink d (rowStart L ri d y).
Proof.
  unfold rowStart, rowBreak, rowBackground.
  destruct (needsNewPage L d y), (Nat.eqb (ri mod 2) 1); cbn [fst snd];
    unfold fillRect;
    repeat first [ apply continuesWith_refl
                 | apply cw_emit; [reflexivity | ]
                 | apply cw_addPage; [reflexivity | ] ].
Qed.

Lemma rowBreak_top (d : Doc) (y : Q) : snd (rowBreak L (d, y)) = rowTop L d y.
Proof. unfold rowBreak, rowTop. now destruct (needsNewPage L d y). Qed.

(** One iteration of the body-row loop. *)
Lemma bodyRow_spec (ri : nat) (d : Doc) (y : Q) (row : Row) (st' : Doc * Q) :
  bodyRow B L ri (d, y) row = Ok st' ->
  exists cells x',
    rowCells row = Ok cells /\
    cellLoop B L (rowTop L d y) 0 cells (rowStart L ri d y, tl_startX L)
    = Ok (fst st', x') /\
    snd st' = rowTop L d y + tl_rowHeight L.
Proof.
  unfold bodyRow, paintRow, rowStart. rewrite <- rowBreak_top.
  destruct (rowBreak L (d, y)) as [dr yr]. cbn [fst snd].
  intros H. apply bind_Ok_inv in H as (cells & Hc & H).
  apply bind_Ok_inv in H as ([d2 x2] & Hloop & H).
  injection H as <-. exists cells, x2. cbn [fst snd]. auto.
Qed.

(** What an iteration draws: the lead, then text and nothing else. *)
Lemma bodyRow_out (ri : nat) (d : Doc) (y : Q) (row : Row) (st' : Doc * Q) :
  bodyRow B L ri (d, y) row = Ok st' ->
  exists texts,
    out (fst st') = out d ++ rowLead L ri d y ++ texts /\
    forallb isText texts = true.
Proof.
  intros H. apply bodyRow_spec in H as (cells & x' & _ & Hloop & _).
  destruct (cellLoop_grows B L _ _ _ _ _ Hloop) as (_ & _ & texts & Ho & N).
  cbn [fst] in Ho. exists texts. split; [ | exact N].
  now rewrite Ho, rowStart_out, <- app_assoc.
Qed.

Lemma bodyRow_grows (ri : nat) (st st' : Doc * Q) (row : Row) :
  bodyRow B L ri st row = Ok st' -> continuesWith notLink (fst st) (fst st').
Proof.
  destruct st as [d y]. intros H.
  apply bodyRow_spec in H as (cells & x' & _ & Hloop & _).
  eapply continuesWith_trans; [apply rowStart_grows | ].
  eapply continuesWith_weaken; [apply isText_notLink | ].
  exact (cellLoop_grows B L _ _ _ _ _ Hloop).
Qed.

Lemma rows_loop_grows (rows : list Row) (i : nat) (st st' : Doc * Q) :
  forEachIdx (bodyRow B L) i rows st = Ok st' ->
  continuesWith notLink (fst st) (fst st').
Proof.
  intros H.
  apply (forEachIdx_invariant (bodyRow B L)
           (fun s => continuesWith notLink (fst st) (fst s)) rows)
    with (i := i) (s := st);
    [ | apply continuesWith_refl | exact H].
  intros j s row s' _ Hinv Hstep.
  eapply continuesWith_trans; [exact Hinv | ].
  eapply bodyRow_grows; exact Hstep.
Qed.

Lemma headerCell_grows (y : Q) (i : nat) (st st' : Doc * Q) (h : string) :
  headerCell B L y i st h = Ok st' -> continuesWith notLink (fst st) (fst st').
Proof.
  destruct st as [d x]. unfold headerCell.
  destruct (nth_error (tl_colWidths L) i); [ | discriminate].
  intros H. injection H as <-. cbn [fst].
  apply cw_textAt; [intros; reflexivity | ].
  apply cw_setFont, continuesWith_refl.
Qed.

Lemma headerRow_grows (hs : list string) (st st' : Doc * Q) :
  headerRow B L hs st = Ok st' -> continuesWith notLink (fst st) (fst st').
Proof.
  destruct st as [d y]. unfold headerRow.
  destruct hs as [| h hs];
    [intros H; injection H as <-; apply continuesWith_refl | ].
  intros H. apply bind_Ok_inv in H as (s1 & Hloop & H). injection H as <-.
  cbn [fst].
  set (d0 := fillRect (tl_startX L) y (totalWidth (tl_colWidths L))
                      (tl_rowHeight L) (tl_headerBg L) 1 d) in *.
  apply continuesWith_trans with (d2 := d0).
  - unfold d0, fillRect. apply cw_emit; [reflexivity | apply continuesWith_refl].
  - apply (forEachIdx_invariant (headerCell B L y)
             (fun s => continuesWith notLink d0 (fst s)) (h :: hs))
      with (i := 0%nat) (s := (d0, tl_startX L));
      [ | apply continuesWith_refl | exact Hloop].
    intros j s a s' _ Hinv Hstep.
    eapply continuesWith_trans; [exact Hinv | ].
    eapply headerCell_grows; exact Hstep.
Qed.

Lemma tableFinish_grows (el : Attrs) (st : Doc * Q) :
  continuesWith notLink (fst st) (tableFinish L el st).
Proof.
  destruct st as [d y]. unfold tableFinish. cbn [fst].
  apply cw_setXY.
  destruct (gridLines (el_table el)) as [[ | ] | ];
    try apply continuesWith_refl;
    unfold strokeLine; (apply cw_emit; [reflexivity | ]);
    apply cw_setStroke, continuesWith_refl.
Qed.

End TableRows.

Section TableRun.
Variable B : Backend.
Variable this : Engine.

(** The three stages of [_renderTable]. *)
Lemma renderTable_stages (doc : Doc) (el : Attrs) (d' : Doc) :
  _renderTable B this doc el = Ok d' ->
  let L := tableLayout this doc el in
  exists st0 st1,
    headerRow B L (tableHeaders el) (doc, doc_y doc) = Ok st0 /\
    forEachIdx (bodyRow B L) 0 (tableRows el) st0 = Ok st1 /\
    d' = tableFinish L el st1.
Proof.
  intros H. unfold _renderTable in H. cbv zeta.
  apply bind_Ok_inv in H as (st0 & H0 & H).
  apply bind_Ok_inv in H as (st1 & H1 & H).
  injection H as <-. now exists st0, st1.
Qed.

Lemma renderTable_grows (doc : Doc) (el : Attrs) (d' : Doc) :
  _renderTable B this doc el = Ok d' -> continuesWith notLink doc d'.
Proof.
  intros H. destruct (renderTable_stages doc el d' H) as (st0 & st1 & H0 & H1 & ->).
  eapply continuesWith_trans; [exact (headerRow_grows B _ _ _ _ H0) | ].
  eapply continuesWith_trans; [exact (rows_loop_grows B _ _ _ _ _ H1) | ].
  apply tableFinish_grows.
Qed.

(** The run of [_renderTable] at body row [ri]: the loop reaches the row
    with some document [d] and row cursor [y]; what had been drawn before
    comes first in the output of the table, then what the iteration
    draws, then the rest. *)
Lemma table_row_run (doc : Doc) (el : Attrs) (d' : Doc) (ri : nat) (row : Row) :
  _renderTable B this doc el = Ok d' ->
  nth_error (tableRows el) ri = Some row ->
  let L := tableLayout this doc el in
  exists st0 d y d1 y1 before after,
    headerRow B L (tableHeaders el) (doc, doc_y doc) = Ok st0 /\
    forEachIdx (bodyRow B L) 0 (firstn ri (tableRows el)) st0 = Ok (d, y) /\
    bodyRow B L ri (d, y) row = Ok (d1, y1) /\
    continuesWith notLink doc d /\
    out d = out doc ++ before /\ forallb notLink before = true /\
    out d' = out d1 ++ after /\ forallb notLink after = true.
Proof.
  intros H Hrow. cbv zeta.
  destruct (renderTable_stages doc el d' H) as (st0 & st1 & H0 & H1 & ->).
  destruct (forEachIdx_nth _ _ 0%nat ri st0 st1 row H1 Hrow)
    as ([d y] & [d1 y1] & Hpre & Hstep & _ & Hpost).
  cbn [Nat.add] in Hstep, Hpost.
  assert (G : continuesWith notLink doc d).
  { eapply continuesWith_trans; [exact (headerRow_grows B _ _ _ _ H0) | ].
    exact (rows_loop_grows B _ _ _ _ _ Hpre). }
  assert (G' : continuesWith notLink d1 (tableFinish (tableLayout this doc el) el st1)).
  { eapply continuesWith_trans; [exact (rows_loop_grows B _ _ _ _ _ Hpost) | ].
    apply tableFinish_grows. }
  pose proof G as (_ & _ & before & Hb & Nb).
  destruct G' as (_ & _ & after & Ha & Na).
  exists st0, d, y, d1, y1, before, after.
  split; [exact H0 | ]. split; [exact Hpre | ]. split; [exact Hstep | ].
  split; [exact G | ]. auto.
Qed.

(** The place of body cell [(ri, ci)] in the output of the table. *)
Lemma table_cell_run (doc : Doc) (el : Attrs) (d' : Doc) (ri : nat)
    (row : Row) (cells : list Cell) (ci : nat) (cell : Cell) :
  _renderTable B this doc el = Ok d' ->
  nth_error (tableRows el) ri = Some row ->
  rowCells row = Ok cells ->
  nth_error cells ci = Some cell ->
  let L := tableLayout this doc el in
  exists st0 d y dc before after,
    headerRow B L (tableHeaders el) (doc, doc_y doc) = Ok st0 /\
    forEachIdx (bodyRow B L) 0 (firstn ri (tableRows el)) st0 = Ok (d, y) /\
    cellLoop B L (rowTop L d y) 0 (firstn ci cells)
             (rowStart L ri d y, tl_startX L) = Ok (dc, cellX L ci) /\
    sameGeometry doc d /\ sameGeometry doc dc /\
    out dc = out doc ++ before /\
    out d' = out doc ++ before
             ++ cellPrim B L (rowTop L d y) ci (cellX L ci) cell dc :: after /\
    forallb notLink before = true /\ forallb notLink after = true.
Proof.
  intros H Hrow Hcells Hcell. cbv zeta.
  destruct (table_row_run doc el d' ri row H Hrow)
    as (st0 & d & y & d1 & y1 & b0 & a0 & H0 & Hpre & Hstep & G & Hb & Nb & Ha & Na).
  set (L := tableLayout this doc el) in *.
  apply bodyRow_spec in Hstep as (cells' & x' & Hc & Hloop & _).
  rewrite Hcells in Hc. injection Hc as <-. cbn [fst] in Hloop.
  destruct (cellLoop_cell B L _ _ _ _ _ ci cell Hloop Hcell)
    as (dc & Hdc & Gc & a1 & Ho1 & N1).
  pose proof (continuesWith_trans _ _ _ _ (rowStart_grows L ri d y)
                (continuesWith_weaken _ _ _ _ isText_notLink Gc)) as Gdc.
  destruct Gdc as (Gg & _ & b1 & Hb1 & Nb1).
  exists st0, d, y, dc, (b0 ++ b1), (a1 ++ a0).
  split; [exact H0 | ]. split; [exact Hpre | ]. split; [exact Hdc | ].
  split; [exact (proj1 G) | ].
  split; [eapply sameGeometry_trans; [exact (proj1 G) | exact Gg] | ].
  split; [now rewrite Hb1, Hb, <- app_assoc | ].
  split; [rewrite Ha, Ho1, Hb1, Hb, <- !app_assoc; reflexivity | ].
  split; [now rewrite forallb_app, Nb, Nb1 | ].
  rewrite forallb_app, Na.
  assert (N1' : forallb notLink a1 = true).
  { rewrite forallb_forall in *. intros p Hp. apply isText_notLink. auto. }
  now rewrite N1'.
Qed.

End TableRun.

(* ------------------------------------------------------------------ *)
(** ** The dispatcher                                                   *)
(* ------------------------------------------------------------------ *)

Section NestedInduction.
Variable P : Element -> Prop.

Hypothesis step :
  forall a columns,
    match columns with Some cols => Forall (columnAll P) cols | None => True end ->
    P (El a columns).

(** Induction on elements through the columns they nest. *)
Lemma Element_nested_ind : forall el, P el.
Proof.
  fix IH 1. intros [a [cols | ]]; apply step; [ | exact I].
  induction cols as [| [es cs] cols IHc]; constructor; [ | exact IHc].
  split; simpl.
  - destruct es as [es | ]; [ | exact I].
    induction es as [| e es IHe]; constructor; [apply IH | exact IHe].
  - destruct cs as [cs | ]; [ | exact I].
    induction cs as [| e cs IHe]; constructor; [apply IH | exact IHe].
Qed.
End NestedInduction.

Section ColumnsGrow.
Variable renderPatched : Q -> Element -> Doc -> Outcome Doc.

Lemma renderChildren_grows (w : Q) (col : Column Element) (d d' : Doc) :
  columnAll (adds renderPatched) col ->
  renderChildren renderPatched w col d = Ok d' -> continuesWith anyPrim d d'.
Proof.
  intros (He & Hc). unfold renderChildren.
  destruct (col_elements col) as [es | ].
  - apply (forEach_invariant _ (fun s => continuesWith anyPrim d s));
      [ | apply continuesWith_refl].
    intros s a s' Hin Hs Hstep. rewrite Forall_forall in He.
    eapply continuesWith_trans; [exact Hs | exact (He a Hin w s s' Hstep)].
  - destruct (col_content col) as [es | ].
    + apply (forEach_invariant _ (fun s => continuesWith anyPrim d s));
        [ | apply continuesWith_refl].
      intros s a s' Hin Hs Hstep. rewrite Forall_forall in Hc.
      eapply continuesWith_trans; [exact Hs | exact (Hc a Hin w s s' Hstep)].
    + intros H. injection H as <-. apply continuesWith_refl.
Qed.

Lemma renderColumn_grows (gap w startY : Q) (i : nat) (st st' : Doc * Q)
    (col : Column Element) :
  columnAll (adds renderPatched) col ->
  renderColumn renderPatched gap w startY i st col = Ok st' ->
  continuesWith anyPrim (fst st) (fst st').
Proof.
  intros Hcol. destruct st as [d m]. unfold renderColumn. intros H.
  apply bind_Ok_inv in H as (d1 & Hch & H). injection H as <-. cbn [fst].
  eapply continuesWith_trans;
    [ | eapply renderChildren_grows; [exact Hcol | exact Hch]].
  apply cw_setXY, continuesWith_refl.
Qed.

Lemma columns_loop_grows (gap w startY : Q) (cols : list (Column Element)) :
  Forall (columnAll (adds renderPatched)) cols ->
  forall i st st',
    forEachIdx (renderColumn renderPatched gap w startY) i cols st = Ok st' ->
    continuesWith anyPrim (fst st) (fst st').
Proof.
  intros Hall i st st' H.
  apply (forEachIdx_invariant (renderColumn renderPatched gap w startY)
           (fun s => continuesWith anyPrim (fst st) (fst s)) cols)
    with (i := i) (s := st);
    [ | apply continuesWith_refl | exact H].
  intros j s col s' Hin Hs Hstep. rewrite Forall_forall in Hall.
  eapply continuesWith_trans; [exact Hs | ].
  eapply renderColumn_grows; [exact (Hall col Hin) | exact Hstep].
Qed.

Lemma renderColumnList_grows (doc : Doc) (el : Attrs)
    (cols : list (Column Element)) (d' : Doc) :
  Forall (columnAll (adds renderPatched)) cols ->
  renderColumnList renderPatched doc el cols = Ok d' ->
  continuesWith anyPrim doc d'.
Proof.
  intros Hall. unfold renderColumnList. intros H.
  apply bind_Ok_inv in H as ([dN mN] & Hloop & H). injection H as <-.
  apply cw_setXY.
  exact (columns_loop_grows _ _ _ cols Hall _ _ _ Hloop).
Qed.

End ColumnsGrow.

Section Dispatcher.
Variable B : Backend.
Variable this : Engine.

(** Whatever the dispatcher renders, it only adds to the document. *)
Lemma renderElementIn_grows :
  forall el inject doc d',
    renderElementIn B this inject el doc = Ok d' ->
    continuesWith anyPrim doc d'.
Proof.
  induction el as [a columns IH] using Element_nested_ind.
  intros inject doc d' H. cbn [renderElementIn] in H.
  set (a' := match inject with Some w => withWidth w a | None => a end) in *.
  clearbody a'.
  destruct (String.eqb (el_type a') "text");
    [injection H as <-; apply renderText_grows | ].
  destruct (String.eqb (el_type a') "heading");
    [injection H as <-; apply renderHeading_grows | ].
  destruct (String.eqb (el_type a') "link");
    [eapply renderLink_grows; exact H | ].
  destruct (String.eqb (el_type a') "list");
    [eapply renderList_grows; exact H | ].
  destruct (String.eqb (el_type a') "table");
    [eapply continuesWith_any, renderTable_grows; exact H | ].
  destruct (String.eqb (el_type a') "image");
    [eapply renderImage_grows; exact H | ].
  destruct (String.eqb (el_type a') "divider");
    [injection H as <-; apply renderDivider_grows | ].
  destruct (String.eqb (el_type a') "spacer");
    [injection H as <-; apply renderSpacer_grows | ].
  destruct (String.eqb (el_type a') "columns").
  { assert (Hadds : forall cols,
              Forall (columnAll
                        (fun el => forall inject doc d',
                             renderElementIn B this inject el doc = Ok d' ->
                             continuesWith anyPrim doc d')) cols ->
              Forall (columnAll (adds (fun w => renderElementIn B this (Some w))))
                     cols).
    { intros cols Hc. eapply Forall_impl; [ | exact Hc].
      intros col (He & Hn). split.
      - destruct (col_elements col); [ | exact I].
        eapply Forall_impl; [ | exact He]. intros e He' w d d1. apply He'.
      - destruct (col_content col); [ | exact I].
        eapply Forall_impl; [ | exact Hn]. intros e He' w d d1. apply He'. }
    unfold _renderColumns in H. destruct columns as [cols | ].
    - eapply renderColumnList_grows; [exact (Hadds cols IH) | exact H].
    - eapply renderColumnList_grows; [constructor | exact H]. }
  destruct (String.eqb (el_type a') "rect");
    [eapply renderRect_grows; exact H | ].
  destruct (String.eqb (el_type a') "overlay");
    [injection H as <-; apply renderOverlay_grows | ].
  destruct (String.eqb (el_type a') "stealthLink");
    [injection H as <-; apply renderStealthLink_grows | ].
  destruct (String.eqb (el_type a') "pageBreak").
  - injection H as <-. apply cw_addPage; [reflexivity | apply continuesWith_refl].
  - injection H as <-. apply continuesWith_refl.
Qed.

Lemma eqb_unregistered (t k : string) :
  ~ In t registeredKinds -> In k registeredKinds -> String.eqb t k = false.
Proof.
  intros Hn Hk. destruct (String.eqb_spec t k) as [-> | ]; [contradiction | reflexivity].
Qed.

(** The [default] arm: an element of an unregistered kind leaves the
    document as it was, at top level and inside a column. *)
Lemma renderElementIn_unknown (inject : option Q) (el : Element) (doc : Doc) :
  ~ In (el_type (attrs el)) registeredKinds ->
  renderElementIn B this inject el doc = Ok doc.
Proof.
  destruct el as [a cols]; simpl. intros Hn.
  assert (Ht : el_type (match inject with
                        | Some w => withWidth w a
                        | None => a
                        end) = el_type a) by (destruct inject; reflexivity).
  rewrite Ht.
  repeat (rewrite (eqb_unregistered _ _ Hn) by (simpl; tauto)).
  reflexivity.
Qed.

(** C6 — An element whose kind is not registered is skipped by the
    dispatcher: the call returns normally with the very document it was
    given (no primitive emitted, cursor and every other field unchanged),
    and a specification renders to the same result with or without that
    element. *)
Theorem unknown_kind_is_skipped
    (doc : Doc) (spec spec' : Spec) (pre post : list Element) (el : Element) :
  ~ In (el_type (attrs el)) registeredKinds ->
  specElements spec = pre ++ el :: post ->
  specElements spec' = pre ++ post ->
  sp_pageNumbers spec' = sp_pageNumbers spec ->
  _renderElement B this doc el = Ok doc /\
  (forall d, _renderElement B this d el = Ok d) /\
  _render B this doc spec = _render B this doc spec'.
Proof.
  intros Hn Hs Hs' Hpn.
  assert (Hskip : forall d, _renderElement B this d el = Ok d)
    by (intros d; now apply renderElementIn_unknown).
  split; [apply Hskip | split; [exact Hskip | ]].
  unfold _render. rewrite Hs, Hs', Hpn, !forEach_app.
  destruct (forEach (_renderElement B this) pre doc) as [d1 | e | ]; simpl; auto.
  now rewrite Hskip.
Qed.

End Dispatcher.

(** A specification with an [unknownWidget] between two page breaks. *)
Lemma unknown_kind_is_skipped_witness :
  let widget := Sample.leaf (Sample.bare "unknownWidget") in
  let brk := Sample.leaf (Sample.bare "pageBreak") in
  _renderElement Sample.backend Sample.engine Sample.a4 widget = Ok Sample.a4 /\
  _render Sample.backend Sample.engine Sample.a4
          (mkSpec (Some [brk; widget; brk]) None None)
  = _render Sample.backend Sample.engine Sample.a4
            (mkSpec None (Some [brk; brk]) None).
Proof.
  intros widget brk.
  destruct (unknown_kind_is_skipped Sample.backend Sample.engine Sample.a4
              (mkSpec (Some [brk; widget; brk]) None None)
              (mkSpec None (Some [brk; brk]) None)
              [brk] [brk] widget) as (H1 & _ & H3).
  - simpl. intros H.
    repeat (destruct H as [H | H]; [discriminate H | ]). exact H.
  - reflexivity.
  - reflexivity.
  - reflexivity.
  - split; [exact H1 | exact H3].
Defined.

(* ------------------------------------------------------------------ *)
(** ** Plain links                                                      *)
(* ------------------------------------------------------------------ *)

Lemma prefix_refl (s : string) : String.prefix s s = true.
Proof.
  induction s as [| c s IH]; simpl; [reflexivity | ].
  destruct (Ascii.ascii_dec c c); [exact IH | contradiction].
Qed.

Lemma includes_refl (s : string) : includes s s = true.
Proof.
  destruct s as [| c s]; [reflexivity | ].
  cbn [includes]. now rewrite prefix_refl.
Qed.

Lemma out_moveDownIfSet (B : Backend) (el : Attrs) (doc : Doc) :
  out (moveDownIfSet B el doc) = out doc.
Proof. unfold moveDownIfSet. now destruct (truthyQ (el_moveDown el)). Qed.

Section Links.
Variable B : Backend.
Variable this : Engine.

(** C9 — A link element that is not in stealth mode writes
    [el.value || el.url]: the display value when there is one, and the URL
    itself when the display value is absent (or empty), so that the URL is
    then part of the visible text stream; the same text call carries the
    URL as its link. *)
Theorem plain_link_shows_url (doc : Doc) (el : Attrs) (url : string) :
  truthyB (el_stealth el) = false ->
  el_url el = Some url ->
  exists doc' p,
    _renderLink B this doc el = Ok doc' /\
    out doc' = out doc ++ [p] /\
    visibleText p = Some (orS (el_value el) url) /\
    (forall v, el_value el = Some v -> v <> "" -> visibleText p = Some v) /\
    (truthyS (el_value el) = false ->
       visibleText p = Some url /\ includes url (textStream [p]) = true).
Proof.
  intros Hst Hurl. unfold _renderLink. rewrite Hst, Hurl. cbv beta iota zeta.
  eexists. eexists. split; [reflexivity | ].
  split.
  { rewrite out_moveDownIfSet. cbn [out fillColor setFont].
    rewrite text_out. reflexivity. }
  split; [reflexivity | ]. split.
  - intros v Hv Hne. rewrite Hv. cbn [visibleText textPrim orS].
    destruct (String.eqb_spec v ""); [contradiction | reflexivity].
  - intros Hf.
    assert (E : orS (el_value el) url = url).
    { unfold truthyS in Hf. unfold orS. destruct (el_value el) as [v | ];
        [ | reflexivity].
      destruct (String.eqb v ""); [reflexivity | discriminate Hf]. }
    cbn [visibleText textPrim]. rewrite E.
    split; [reflexivity | ].
    unfold textStream, textPrim.
    cbn [flat_map visibleText app String.concat]. apply includes_refl.
Qed.

End Links.

(** [{ type: "link", url: "https://example.com/visible" }] *)
Lemma plain_link_shows_url_witness :
  exists doc' p,
    _renderLink Sample.backend Sample.engine Sample.a4
      (Sample.labelled "link" None (Some "https://example.com/visible"))
    = Ok doc' /\
    out doc' = out Sample.a4 ++ [p] /\
    visibleText p = Some "https://example.com/visible".
Proof.
  destruct (plain_link_shows_url Sample.backend Sample.engine Sample.a4
              (Sample.labelled "link" None (Some "https://example.com/visible"))
              "https://example.com/visible" eq_refl eq_refl)
    as (doc' & p & H1 & H2 & H3 & _).
  exists doc', p. auto.
Defined.

(* ------------------------------------------------------------------ *)
(** ** Tables: column widths                                            *)
(* ------------------------------------------------------------------ *)

Section TableWidths.
Variable B : Backend.
Variable this : Engine.

Lemma autoColumnWidths_length (doc : Doc) (n : nat) :
  length (_autoColumnWidths doc n) = n.
Proof. destruct n; simpl; [reflexivity | now rewrite repeat_length]. Qed.

Lemma autoColumnWidths_entry (doc : Doc) (n ci : nat) (w : Q) :
  nth_error (_autoColumnWidths doc n) ci = Some w ->
  w = contentWidth doc / ofNat n.
Proof.
  intros H. apply nth_error_In in H. destruct n as [| n].
  - destruct H.
  - unfold _autoColumnWidths in H. now apply repeat_spec in H.
Qed.

(** C10 — Without explicit [columnWidths] the width list has one entry
    per header label, each the content width divided by the header
    count, whatever the body rows hold; with no header labels the list is
    empty and every body cell is laid out 100 points wide. *)
Theorem auto_widths_follow_headers (doc : Doc) (el : Attrs) :
  columnWidths (el_table el) = None ->
  let L := tableLayout this doc el in
  let n := length (tableHeaders el) in
  length (tl_colWidths L) = n /\
  (forall ci w, nth_error (tl_colWidths L) ci = Some w ->
                w = contentWidth doc / ofNat n) /\
  (tableHeaders el = [] ->
     tl_colWidths L = [] /\
     forall y ci d x cell,
       cellWidth L ci = 100 /\
       snd (bodyCell B L y ci (d, x) cell) = x + 100).
Proof.
  intros Hw L n. subst L n. unfold tableLayout. rewrite Hw. simpl.
  split; [apply autoColumnWidths_length | ].
  split; [apply autoColumnWidths_entry | ].
  intros ->. simpl. split; [reflexivity | ].
  intros y ci d x cell. unfold cellWidth. simpl.
  destruct ci; simpl; split; reflexivity.
Qed.

End TableWidths.

(** A table with three header labels and a two-cell row has three widths;
    a table with no header has none, and its cells are 100 points wide. *)
Lemma auto_widths_follow_headers_witness :
  length (tl_colWidths
            (tableLayout Sample.engine Sample.a4
               (Sample.table (Some ["A"; "B"; "C"])
                             [RArray [CString "1"; CString "2"]]))) = 3%nat /\
  cellWidth (tableLayout Sample.engine Sample.a4 Sample.sixRows) 0 = 100.
Proof.
  split.
  - exact (proj1 (auto_widths_follow_headers Sample.backend Sample.engine
                    Sample.a4
                    (Sample.table (Some ["A"; "B"; "C"])
                                  [RArray [CString "1"; CString "2"]])
                    eq_refl)).
  - destruct (auto_widths_follow_headers Sample.backend Sample.engine Sample.a4
                Sample.sixRows eq_refl) as (_ & _ & Hempty).
    destruct (Hempty eq_refl) as (_ & Hcell).
    exact (proj1 (Hcell 0 0%nat Sample.a4 0 CUndefined)).
Defined.

(* ------------------------------------------------------------------ *)
(** ** Text calls that stay on their page                               *)
(* ------------------------------------------------------------------ *)

Lemma ofNat_S (n : nat) : ofNat (S n) == ofNat n + 1.
Proof.
  unfold ofNat. rewrite Nat2Z.inj_succ, <- Z.add_1_r, inject_Z_plus.
  reflexivity.
Qed.

Section NoPage.
Variable B : Backend.

(** A line flow that adds no page stays on its page and moves the cursor
    down by the height of its lines. *)
Lemma fold_no_page (lh gap x : Q) (lines : list bool) :
  forall d y0,
    page_count (fst (fold_left (lineStep lh gap x) lines (d, y0)))
    = page_count d ->
    cur_page (fst (fold_left (lineStep lh gap x) lines (d, y0))) = cur_page d /\
    doc_y (fst (fold_left (lineStep lh gap x) lines (d, y0)))
    == doc_y d + ofNat (length lines) * (lh + gap).
Proof.
  induction lines as [| b lines IH]; intros d y0 H; cbn [fold_left length].
  - split; [reflexivity | ]. unfold ofNat. simpl. ring.
  - cbn [fold_left] in H.
    pose proof (flowKeeps_fold lh gap x lines (lineStep lh gap x (d, y0) b))
      as (_ & Hle & _).
    set (d1 := setY (doc_y d + lh + gap) d) in *.
    assert (E1 : lineStep lh gap x (d, y0) b
                 = (if b && gtb (doc_y d1 + lh) (pageBottom d1)
                    then nextSection x d1 else d1, doc_y d)) by reflexivity.
    rewrite E1 in H, Hle |- *. clear E1.
    destruct (b && gtb (doc_y d1 + lh) (pageBottom d1)).
    + exfalso. cbn [fst] in Hle. simpl in Hle. lia.
    + destruct (IH d1 (doc_y d) H) as (Hc & Hy).
      split; [exact Hc | ]. rewrite Hy, ofNat_S. simpl. ring.
Qed.

Lemma text_adds_no_page (t : string) (o : TextOpts) (d : Doc) :
  page_count (text B t o d) = page_count d ->
  startsPage B o d = false /\
  cur_page (text B t o d) = cur_page d /\
  (truthyB (o_continued o) = false ->
   if Qeq_bool (wrapWidth o d) 0
   then doc_y (text B t o d) = doc_y d
   else doc_y (text B t o d)
        == doc_y d
           + ofNat (length (wrap B (cur_font d) (cur_size d)
                                 (wrapWidth o d) o t))
             * (currentLineHeight B (cur_font d) (cur_size d) + lineGapOf o)).
Proof.
  intros H.
  destruct (startsPage B o d) eqn:Es.
  - exfalso. destruct (text_keeps B t o d) as (_ & _ & Hle).
    unfold textStart in Hle. rewrite Es in Hle. simpl in Hle. lia.
  - split; [reflexivity | ]. revert H. unfold text, textStart. rewrite Es.
    destruct (Qeq_bool (wrapWidth o d) 0).
    + intros _. split; [reflexivity | intros _; reflexivity].
    + unfold flow.
      match goal with
      | |- context [fold_left ?f ?l ?s] =>
          pose proof (fold_no_page
                        (currentLineHeight B (cur_font d) (cur_size d))
                        (lineGapOf o) (doc_x d) l (fst s) (snd s)) as Hf;
          cbn [fst snd] in Hf;
          destruct (fold_left f l s) as [d1 y1]
      end.
      cbn [fst] in Hf.
      destruct (truthyB (o_continued o)); intros H; simpl in H;
        destruct (Hf H) as (Hc & Hy); simpl in Hc, Hy.
      * split; [exact Hc | intros E; discriminate E].
      * split; [exact Hc | intros _; exact Hy].
Qed.

End NoPage.

(* ------------------------------------------------------------------ *)
(** ** Stealth links                                                    *)
(* ------------------------------------------------------------------ *)

Section StealthLinks.
Variable B : Backend.
Variable this : Engine.


End StealthLinks.



(** Less than a line above the bottom margin the text call starts a new
    page first: the text goes to the top of page 1, and the annotation,
    computed from the cursor recorded on page 0, lands on page 1 with a
    negative height. *)
Example stealth_link_at_the_page_end :
  let el := Sample.labelled "stealthLink" (Some "View Document")
                            (Some "https://example.com/secret") in
  let d' := _renderStealthLink Sample.backend Sample.engine Sample.lastLine el in
  page_count d' = 2%nat /\
  exists w h,
    out d' = [PText 1 "Helvetica" 12 "#000000" "View Document" 50 50
                    (stealthOpts el);
              PLink 1 50 785 w h "https://example.com/secret"] /\
    w == 495.28 /\ h == - (721.128).
Proof.
  split; [reflexivity | ].
  eexists. eexists. split; [vm_compute; reflexivity | ].
  split; vm_compute; reflexivity.
Qed.

(* ------------------------------------------------------------------ *)
(** ** Tables: body rows                                                *)
(* ------------------------------------------------------------------ *)

Lemma notLink_no_link (prims : list Prim) :
  forallb notLink prims = true -> existsb isLink prims = false.
Proof.
  induction prims as [| p prims IH]; simpl; [reflexivity | ].
  intros H. apply andb_prop in H as (Hp & Hr). rewrite (IH Hr).
  unfold notLink in Hp. now destruct (isLink p).
Qed.

Section TableTheorems.
Variable B : Backend.
Variable this : Engine.

(** C3 — The alternating background of body row [ri] is painted exactly
    when [ri] is odd, [ri] being the row's index in the table.  The
    iteration of the row loop for row [ri] draws [prims], which the output
    of the table holds between what was drawn before the row and what is
    drawn after it; among [prims] there is one filled rectangle, the
    background at the row's top edge on the row's page, if [ri] is odd,
    and none if it is even, whether or not the iteration began by
    starting a new page. *)
Theorem alternate_background_follows_row_index
    (doc : Doc) (el : Attrs) (d' : Doc) (ri : nat) (row : Row) :
  _renderTable B this doc el = Ok d' ->
  nth_error (tableRows el) ri = Some row ->
  let L := tableLayout this doc el in
  exists st0 d y d1 y1 before prims after,
    headerRow B L (tableHeaders el) (doc, doc_y doc) = Ok st0 /\
    forEachIdx (bodyRow B L) 0 (firstn ri (tableRows el)) st0 = Ok (d, y) /\
    bodyRow B L ri (d, y) row = Ok (d1, y1) /\
    out d = out doc ++ before /\
    out d1 = out d ++ prims /\
    out d' = out doc ++ before ++ prims ++ after /\
    existsb isNewPage prims = needsNewPage L d y /\
    existsb isFillRect prims = Nat.odd ri /\
    filter isFillRect prims
    = if Nat.odd ri then [altFill L (rowPage L d y) (rowTop L d y)] else [].
Proof.
  intros H Hrow. cbv zeta.
  destruct (table_row_run B this doc el d' ri row H Hrow)
    as (st0 & d & y & d1 & y1 & before & after
        & H0 & Hpre & Hstep & _ & Hb & _ & Ha & _).
  set (L := tableLayout this doc el) in *.
  destruct (bodyRow_out B L _ _ _ _ _ Hstep) as (texts & Ho & Nt).
  cbn [fst] in Ho.
  exists st0, d, y, d1, y1, before, (rowLead L ri d y ++ texts), after.
  split; [exact H0 | ]. split; [exact Hpre | ]. split; [exact Hstep | ].
  split; [exact Hb | ]. split; [exact Ho | ].
  split; [rewrite Ha, Ho, Hb, <- !app_assoc; reflexivity | ].
  destruct (isText_no_fill texts Nt) as (Hf & He & Hn).
  unfold rowLead. rewrite !existsb_app, !filter_app, Hf, He, Hn.
  destruct (needsNewPage L d y), (Nat.odd ri); simpl; auto.
Qed.

(** After the page check a row has room for its fixed height, provided
    that a fresh page has. *)
Lemma rowTop_fits (L : TableLayout) (doc d : Doc) (y : Q) :
  sameGeometry doc d ->
  margin_top doc + tl_rowHeight L <= pageBottom doc ->
  rowTop L d y + tl_rowHeight L <= pageBottom doc.
Proof.
  intros G Hfresh. unfold rowTop, needsNewPage.
  destruct (gtb (y + tl_rowHeight L) (page_height d - margin_bottom d)) eqn:E.
  - destruct G as (_ & _ & -> & _). exact Hfresh.
  - apply gtb_false_le in E.
    rewrite <- (sameGeometry_pageBottom _ _ G). exact E.
Qed.

(** Where the text of a body cell begins. *)
Lemma cellPrim_placed (L : TableLayout) (top : Q) (ci : nat) (x : Q)
    (cell : Cell) (doc dc : Doc) :
  sameGeometry doc dc ->
  top + tl_cellPadding L <= pageBottom doc ->
  top + tl_cellPadding L
  + currentLineHeight B (tl_bodyFont L) (tl_fontSize L) <= pageBottom doc ->
  cellPrim B L top ci x cell dc
  = PText (cur_page dc) (tl_bodyFont L) (tl_fontSize L) (cellColor cell)
          (cellText cell) (x + tl_cellPadding L) (top + tl_cellPadding L)
          (cellOpts L ci cell).
Proof.
  intros G H1 H2. unfold cellPrim. rewrite textPrim_here; [reflexivity | ].
  unfold startsPage, offPage.
  change (pageBottom (cellReady L top x cell dc)) with (pageBottom dc).
  rewrite (sameGeometry_pageBottom _ _ G).
  cbn [doc_y cellReady setXY cur_font cur_size setFont].
  rewrite (le_gtb_false _ _ H1), (le_gtb_false _ _ H2).
  apply andb_false_r.
Qed.

Lemma cellPrim_cases (L : TableLayout) (top : Q) (ci : nat) (x : Q)
    (cell : Cell) (dc : Doc) :
  exists pg py,
    cellPrim B L top ci x cell dc
    = PText pg (tl_bodyFont L) (tl_fontSize L) (cellColor cell)
            (cellText cell) (x + tl_cellPadding L) py (cellOpts L ci cell) /\
    ((startsPage B (cellOpts L ci cell) (cellReady L top x cell dc) = false /\
      pg = cur_page dc /\ py = top + tl_cellPadding L) \/
     (startsPage B (cellOpts L ci cell) (cellReady L top x cell dc) = true /\
      pg = page_count dc /\ py = margin_top dc)).
Proof.
  unfold cellPrim.
  destruct (startsPage B (cellOpts L ci cell) (cellReady L top x cell dc)) eqn:E.
  - rewrite (textPrim_over B _ _ _ E). eexists. eexists.
    split; [reflexivity | right; repeat split; reflexivity].
  - rewrite (textPrim_here B _ _ _ E). eexists. eexists.
    split; [reflexivity | left; repeat split; reflexivity].
Qed.

(** C7 (as amended) — A table body cell that carries a link is written
    by one text call, and the link rides on that call: the cell's text, in
    [cell.color] or the link blue, underlined, wrapped to the column width
    less twice the padding, with the URL as the [link] option, begins at
    the cell's left edge plus the padding and the row's top edge plus the
    padding, on the page that is current when the loop over the cells of
    the row reaches the cell.  The row's top edge is where the row loop
    puts the row: the top margin of a new page if the page check called
    for one, the row cursor otherwise.  The table draws what came before
    the cell, this text, and what comes after, and nowhere a [doc.link]
    region.  The position holds for a layout in which the first line of a
    cell fits in the row and a row fits on a fresh page. *)
Theorem linked_cell_is_linked_by_its_text
    (doc : Doc) (el : Attrs) (d' : Doc) (ri : nat) (row : Row)
    (cells : list Cell) (ci : nat) (t c : option string) (l : string) :
  _renderTable B this doc el = Ok d' ->
  nth_error (tableRows el) ri = Some row ->
  rowCells row = Ok cells ->
  nth_error cells ci = Some (CObject t (Some l) c) ->
  l <> "" ->
  let L := tableLayout this doc el in
  let pad := tl_cellPadding L in
  let lh := currentLineHeight B (tl_bodyFont L) (tl_fontSize L) in
  pad <= tl_rowHeight L ->
  pad + lh <= tl_rowHeight L ->
  margin_top doc + tl_rowHeight L <= pageBottom doc ->
  exists st0 d y dc before after,
    headerRow B L (tableHeaders el) (doc, doc_y doc) = Ok st0 /\
    forEachIdx (bodyRow B L) 0 (firstn ri (tableRows el)) st0 = Ok (d, y) /\
    cellLoop B L (rowTop L d y) 0 (firstn ci cells)
             (rowStart L ri d y, tl_startX L) = Ok (dc, cellX L ci) /\
    out dc = out doc ++ before /\
    out d' = out doc ++ before
             ++ PText (cur_page dc) (tl_bodyFont L) (tl_fontSize L)
                      (orS c "#1a0dab") (orS t "")
                      (cellX L ci + pad) (rowTop L d y + pad)
                      (widthOpts (cellWidth L ci - pad * 2) None (Some l)
                                 (Some true))
                :: after /\
    existsb isLink (before ++ after) = false.
Proof.
  intros H Hrow Hcells Hcell Hl L pad lh Hpad Hline Hfresh.
  destruct (table_cell_run B this doc el d' ri row cells ci _ H Hrow Hcells Hcell)
    as (st0 & d & y & dc & before & after
        & H0 & Hpre & Hdc & Gd & Gdc & Hb & Ho & Nb & Na).
  fold L in H0, Hpre, Hdc, Ho.
  exists st0, d, y, dc, before, after.
  split; [exact H0 | ]. split; [exact Hpre | ]. split; [exact Hdc | ].
  split; [exact Hb | ].
  pose proof (rowTop_fits L doc d y Gd Hfresh) as Htop.
  split.
  - rewrite Ho. do 2 f_equal.
    rewrite (cellPrim_placed L _ ci _ _ doc dc Gdc).
    + unfold cellColor, cellText, cellOpts, cellLink, keepS, truthyS.
      destruct (String.eqb_spec l ""); [contradiction | reflexivity].
    + fold pad. lra.
    + fold pad lh. lra.
  - now rewrite existsb_app, (notLink_no_link _ Nb), (notLink_no_link _ Na).
Qed.

End TableTheorems.

(** Row 5 of six rows that start 700 points down an A4 page lands on the
    second page and, its index being odd, has the background. *)
Lemma alternate_background_follows_row_index_witness :
  exists d' d y d1 y1 before prims after,
    _renderTable Sample.backend Sample.engine Sample.nearBottom Sample.sixRows
    = Ok d' /\
    bodyRow Sample.backend
            (tableLayout Sample.engine Sample.nearBottom Sample.sixRows)
            5 (d, y) (RArray [CString "r5"]) = Ok (d1, y1) /\
    out d' = out Sample.nearBottom ++ before ++ prims ++ after /\
    existsb isFillRect prims = true.
Proof.
  destruct (_renderTable Sample.backend Sample.engine Sample.nearBottom
                         Sample.sixRows) as [d' | e | ] eqn:E;
    [ | vm_compute in E; discriminate E | vm_compute in E; discriminate E].
  destruct (alternate_background_follows_row_index Sample.backend Sample.engine
              Sample.nearBottom Sample.sixRows d' 5 (RArray [CString "r5"])
              E eq_refl)
    as (st0 & d & y & d1 & y1 & before & prims & after
        & _ & _ & Hrow & _ & _ & Hout & _ & Hfill & _).
  exists d', d, y, d1, y1, before, prims, after. auto.
Defined.

(** The run on the six rows, spelled out: the page breaks before row 3, and
    the backgrounds are those of rows 1, 3 and 5 on either side of it. *)
Example six_rows_across_a_page_break :
  exists d',
    _renderTable Sample.backend Sample.engine Sample.nearBottom Sample.sixRows
    = Ok d' /\
    map (fun p => (isNewPage p, isFillRect p, primPage p)) (out d')
    = [ (false, false, 0%nat);                        (* r0 *)
        (false, true, 0%nat); (false, false, 0%nat);  (* r1 *)
        (false, false, 0%nat);                        (* r2 *)
        (true, false, 1%nat);                         (* new page *)
        (false, true, 1%nat); (false, false, 1%nat);  (* r3 *)
        (false, false, 1%nat);                        (* r4 *)
        (false, true, 1%nat); (false, false, 1%nat);  (* r5 *)
        (false, false, 1%nat) ].                      (* bottom rule *)
Proof. eexists. split; [vm_compute; reflexivity | vm_compute; reflexivity]. Qed.

(** C2 — A body row can end up on two pages.  The page check looks at
    the fixed row height only.  Here the row sits 702 points down the
    first page: its 24 points fit, so the table starts no page (no
    [PNewPage] in the output).  The first cell holds eight lines; PDFKit
    fills the page with seven of them and starts page 1 for the eighth,
    inside the text call.  The engine then writes the second cell of the
    same row, and the rule under the table, on page 1, at the vertical
    position it had computed for page 0. *)
Theorem table_row_may_span_two_pages :
  exists d',
    _render Sample.backend Sample.engine Sample.a4 Sample.tallCell = Ok d' /\
    page_count d' = 2%nat /\
    existsb isNewPage (out d') = false /\
    map (fun p => (primPage p, visibleText p)) (out d')
    = [ (0%nat, Some Sample.eightLines);   (* row 0, cell 0 *)
        (1%nat, Some "next");              (* row 0, cell 1 *)
        (1%nat, None) ].                   (* bottom rule *)
Proof.
  eexists. split; [vm_compute; reflexivity | ].
  split; [reflexivity | ]. split; vm_compute; reflexivity.
Qed.

(** The table of the engine's test "supports tables with clickable
    cells": the text of the linked cell begins 5 points inside the box of
    cell 1 of the row whose top edge is 74, on page 0. *)
Lemma linked_cell_is_linked_by_its_text_witness :
  let L := tableLayout Sample.engine Sample.a4 Sample.linkTable in
  exists d' before after,
    _renderTable Sample.backend Sample.engine Sample.a4 Sample.linkTable = Ok d' /\
    out d' = out Sample.a4 ++ before
             ++ PText 0 "Helvetica" 10 "#1a0dab" "Visit"
                      (cellX L 1 + 5) (74 + 5)
                      (widthOpts (cellWidth L 1 - 5 * 2) None
                                 (Some "https://google.com") (Some true))
                :: after /\
    existsb isLink (before ++ after) = false.
Proof.
  intros L.
  destruct (_renderTable Sample.backend Sample.engine Sample.a4 Sample.linkTable)
    as [d' | e | ] eqn:E;
    [ | vm_compute in E; discriminate E | vm_compute in E; discriminate E].
  destruct (linked_cell_is_linked_by_its_text Sample.backend Sample.engine
              Sample.a4 Sample.linkTable d' 0
              (RArray [CString "Google";
                       CObject (Some "Visit") (Some "https://google.com") None])
              [CString "Google";
               CObject (Some "Visit") (Some "https://google.com") None]
              1 (Some "Visit") None "https://google.com"
              E eq_refl eq_refl eq_refl)
    as (st0 & d & y & dc & before & after & H0 & Hpre & Hdc & _ & Hout & Hno).
  - discriminate.
  - apply Qle_bool_imp_le. vm_compute. reflexivity.
  - apply Qle_bool_imp_le. vm_compute. reflexivity.
  - apply Qle_bool_imp_le. vm_compute. reflexivity.
  - exists d', before, after. split; [reflexivity | ]. split; [ | exact Hno].
    vm_compute in H0. injection H0 as <-.
    cbn [firstn forEachIdx] in Hpre. injection Hpre as <- <-.
    vm_compute in Hdc. injection Hdc as <-.
    exact Hout.
Defined.

(** C7 (as stated) fails on the engine's own test table: the output holds
    no link annotation at all, in particular none over the full box of the
    linked cell (cell 1 of the row whose top edge is 74); the URL travels
    with the text call alone. *)
Lemma linked_cell_has_no_region_of_its_own :
  exists d',
    _renderTable Sample.backend Sample.engine Sample.a4 Sample.linkTable = Ok d' /\
    existsb isLink (out d') = false /\
    ~ In (fullCellRegion (tableLayout Sample.engine Sample.a4 Sample.linkTable)
                         0 1 74 "https://google.com")
         (out d') /\
    annotations (out d') = ["https://google.com"].
Proof.
  eexists. split; [vm_compute; reflexivity | ].
  split; [vm_compute; reflexivity | ].
  split; [ | vm_compute; reflexivity].
  unfold fullCellRegion. simpl out. intros Hin.
  repeat (destruct Hin as [Hin | Hin]; [discriminate Hin | ]). exact Hin.
Qed.

(* ------------------------------------------------------------------ *)
(** ** The page-numbering pass                                          *)
(* ------------------------------------------------------------------ *)

Lemma positive_not_zero (q : Q) : 0 < q -> Qeq_bool q 0 = false.
Proof.
  intros H. destruct (Qeq_bool q 0) eqn:E; [ | reflexivity].
  apply Qeq_bool_eq in E. rewrite E in H. now apply Qlt_irrefl in H.
Qed.

Section PageNumbering.
Variable B : Backend.
Variable this : Engine.

Lemma strayFooter_geometry (opts : PageNumbers) (d d' : Doc) (count i pg : nat) :
  sameGeometry d d' ->
  strayFooter this opts d' count i pg = strayFooter this opts d count i pg.
Proof.
  unfold sameGeometry, strayFooter, contentWidth.
  intros (-> & _ & -> & _ & -> & ->). reflexivity.
Qed.

(** The footer is asked for below the content area, so the text call
    starts a page for it. *)
Lemma stampPage_spec (opts : PageNumbers) (count : nat) (d : Doc) (i : nat) :
  0 < contentWidth d ->
  out (stampPage B this opts count d i)
  = out d ++ [strayFooter this opts d count i (page_count d)] /\
  sameGeometry d (stampPage B this opts count d i) /\
  (S (page_count d) <= page_count (stampPage B this opts count d i))%nat.
Proof.
  intros Hw. unfold stampPage, textAt.
  match goal with
  | |- context [text B ?t ?o ?dR] =>
      assert (Es : startsPage B o dR = true);
      [ | pose proof (text_keeps B t o dR) as (G & _ & Hle);
          rewrite (text_out B t o dR), (textPrim_over B t o dR Es) ]
  end.
  - unfold startsPage, wrapWidth, offPage, footerY, pageBottom.
    cbn [o_width widthOpts doc_x doc_y setXY setFont switchToPage
         page_width page_height margin_bottom margin_right margin_left].
    change (contentWidth
              (setFont (defaultFont this) (orQ (pn_fontSize opts) 10)
                       (orS (pn_color opts) "#888888") (switchToPage i d)))
      with (contentWidth d).
    rewrite (lt_gtb_true _ _ Hw), (positive_not_zero _ Hw).
    cbn [negb andb]. apply orb_true_iff. left. apply lt_gtb_true. lra.
  - split; [reflexivity | ]. split; [exact G | ].
    unfold textStart in Hle. rewrite Es in Hle. exact Hle.
Qed.

Lemma stamp_loop (opts : PageNumbers) (count : nat) (d0 : Doc) (n : nat) :
  0 < contentWidth d0 ->
  forall (s : nat) (d : Doc),
    sameGeometry d0 d ->
    exists stamps,
      out (fold_left (stampPage B this opts count) (seq s n) d)
      = out d ++ stamps /\
      length stamps = n /\
      (page_count d + n
       <= page_count (fold_left (stampPage B this opts count) (seq s n) d))%nat /\
      forall k, (k < n)%nat ->
        exists pg, (page_count d + k <= pg)%nat /\
          nth_error stamps k
          = Some (strayFooter this opts d0 count (s + k) pg).
Proof.
  intros Hw. induction n as [| n IH]; intros s d Hd; cbn [seq fold_left].
  - exists []. rewrite app_nil_r. repeat split; [lia | intros k Hk; lia].
  - assert (Hwd : 0 < contentWidth d)
      by (now rewrite (sameGeometry_contentWidth _ _ Hd)).
    destruct (stampPage_spec opts count d s Hwd) as (Ho & Hg & Hp).
    assert (Hd' : sameGeometry d0 (stampPage B this opts count d s))
      by (eapply sameGeometry_trans; eassumption).
    destruct (IH (S s) _ Hd') as (rest & Hor & Hlen & Hpc & Hnth).
    exists (strayFooter this opts d0 count s (page_count d) :: rest).
    split; [ | split; [ | split]].
    + rewrite Hor, Ho, <- app_assoc, (strayFooter_geometry opts d0 d _ _ _ Hd).
      reflexivity.
    + simpl. now rewrite Hlen.
    + lia.
    + intros [| k] Hk.
      * exists (page_count d). rewrite !Nat.add_0_r. split; [lia | reflexivity].
      * destruct (Hnth k) as (pg & Hpg & Hk'); [lia | ].
        exists pg. split; [lia | ].
        cbn [nth_error]. rewrite Hk'. do 2 f_equal. lia.
Qed.

(** C5 — The footers do not reach the pages they number.  The pass asks
    for the footer of page [i] 15 points below the bottom margin of that
    page; a text call that wraps and finds the cursor below the content
    area starts a new page first.  So when [spec.pageNumbers] is set and
    the content area has a width, the pass appends one footer text for
    each of the [total] pages, reading [prefix], [i + 1], [" of "],
    [total], and each of them lies at the top margin of a page that the
    pass itself has added after the [total] pages: none of the pages
    [0 .. total - 1] carries a footer, and the document ends with at least
    twice as many pages. *)
Theorem page_numbers_land_on_new_pages
    (doc : Doc) (spec : Spec) (opts : PageNumbers) (d1 : Doc) :
  forEach (_renderElement B this) (specElements spec) doc = Ok d1 ->
  sp_pageNumbers spec = Some opts ->
  0 < contentWidth d1 ->
  let total := page_count d1 in
  exists d' stamps,
    _render B this doc spec = Ok d' /\
    out d' = out d1 ++ stamps /\
    length stamps = total /\
    (total + total <= page_count d')%nat /\
    (forall i, (i < total)%nat -> onPage i stamps = []) /\
    forall i, (i < total)%nat ->
      exists pg, (total + i <= pg)%nat /\
        nth_error stamps i
        = Some (PText pg (defaultFont this) (orQ (pn_fontSize opts) 10)
                      (orS (pn_color opts) "#888888")
                      (footerText (orS (pn_prefix opts) "Page ") i total)
                      (margin_left d1) (margin_top d1)
                      (widthOpts (contentWidth d1)
                                 (Some (orS (pn_align opts) "center"))
                                 None None)).
Proof.
  intros Hwalk Hpn Hw total. unfold _render. rewrite Hwalk, Hpn.
  cbn [bind]. unfold _addPageNumbers.
  destruct (stamp_loop opts (page_count d1) d1 (page_count d1) Hw 0 d1
              (sameGeometry_refl d1)) as (stamps & Ho & Hlen & Hpc & Hnth).
  eexists. exists stamps. split; [reflexivity | ].
  split; [exact Ho | ]. split; [exact Hlen | ]. split; [exact Hpc | ].
  split; [ | exact Hnth].
  intros i Hi. unfold onPage.
  assert (Hall : forall p, In p stamps -> (total <= primPage p)%nat).
  { intros p Hin. apply In_nth_error in Hin as (k & Hk).
    destruct (Hnth k) as (pg & Hpg & Hk').
    - rewrite <- Hlen. apply nth_error_Some. now rewrite Hk.
    - rewrite Hk in Hk'. injection Hk' as ->. simpl. fold total in Hpg. lia. }
  clear -Hall Hi. induction stamps as [| p stamps IH]; [reflexivity | ].
  cbn [filter]. pose proof (Hall p (or_introl eq_refl)) as Hp.
  destruct (Nat.eqb_spec (primPage p) i) as [E | _]; [lia | ].
  apply IH. intros q Hq. apply Hall. now right.
Qed.

End PageNumbering.

(** The engine's test "page numbers are added when requested": two pages,
    two footers, four pages in the end. *)
Lemma page_numbers_land_on_new_pages_witness :
  exists d1 d' stamps,
    forEach (_renderElement Sample.backend Sample.engine)
            (specElements Sample.numbered) Sample.a4 = Ok d1 /\
    _render Sample.backend Sample.engine Sample.a4 Sample.numbered = Ok d' /\
    out d' = out d1 ++ stamps /\
    length stamps = page_count d1 /\
    (page_count d1 + page_count d1 <= page_count d')%nat /\
    onPage 0 stamps = [] /\ onPage 1 stamps = [].
Proof.
  destruct (forEach (_renderElement Sample.backend Sample.engine)
                    (specElements Sample.numbered) Sample.a4)
    as [d1 | e | ] eqn:E;
    [ | vm_compute in E; discriminate E | vm_compute in E; discriminate E].
  assert (Hd1 : page_count d1 = 2%nat /\ 0 < contentWidth d1).
  { vm_compute in E. injection E as <-. split; reflexivity. }
  destruct Hd1 as (Hpc & Hw).
  destruct (page_numbers_land_on_new_pages Sample.backend Sample.engine
              Sample.a4 Sample.numbered
              (mkPageNumbers (Some "center") None None None) d1 E eq_refl Hw)
    as (d' & stamps & Hr & Ho & Hlen & Hcount & Hnone & _).
  exists d1, d', stamps.
  split; [reflexivity | ].
  repeat (split; [assumption | ]).
  split; apply Hnone; rewrite Hpc; lia.
Defined.

(** The same run, spelled out: the footers of pages 1 and 2 are the only
    text on pages 3 and 4, at the top margin. *)
Example numbered_pages_get_no_footer :
  exists d',
    _render Sample.backend Sample.engine Sample.a4 Sample.numbered = Ok d' /\
    page_count d' = 4%nat /\
    map (fun p => (primPage p, visibleText p))
        (filter (fun p => negb (isNewPage p)) (out d'))
    = [ (0%nat, Some "Page 1 content"); (1%nat, Some "Page 2 content");
        (2%nat, Some "Page 1 of 2"); (3%nat, Some "Page 2 of 2") ].
Proof.
  eexists. split; [vm_compute; reflexivity | ].
  split; vm_compute; reflexivity.
Qed.

(* ------------------------------------------------------------------ *)
(** ** Columns                                                          *)
(* ------------------------------------------------------------------ *)

Section ColumnsFacts.
Variable B : Backend.
Variable this : Engine.

(** Rendering a child with an injected width is rendering the patched
    child. *)
Lemma renderElementIn_patched (w : Q) (child : Element) (doc : Doc) :
  renderElementIn B this (Some w) child doc
  = _renderElement B this doc (patched w child).
Proof. destruct child as [a cols]. reflexivity. Qed.

(** The children of a column are dispatched in order, each patched with
    the column width. *)
Lemma renderChildren_patched (w : Q) (col : Column Element) (doc : Doc) :
  renderChildren (renderInColumn B this) w col doc
  = forEach (fun d child => _renderElement B this d (patched w child))
            (columnElements col) doc.
Proof.
  unfold renderChildren, columnElements, renderInColumn.
  destruct (col_elements col) as [l | ];
    [ | destruct (col_content col) as [l | ]; [ | reflexivity]];
    apply forEach_ext; intros s a; apply renderElementIn_patched.
Qed.

Lemma every_column_adds (cols : list (Column Element)) :
  Forall (columnAll (adds (renderInColumn B this))) cols.
Proof.
  assert (H : forall el, adds (renderInColumn B this) el).
  { intros el w d d1. apply renderElementIn_grows. }
  apply Forall_forall. intros col _. split.
  - destruct (col_elements col); [ | exact I]. apply Forall_forall. auto.
  - destruct (col_content col); [ | exact I]. apply Forall_forall. auto.
Qed.

Variables gap colWidth startY : Q.

(** One column: its children start at [startY], and [maxY] becomes the
    larger of its old value and the column's end. *)
Lemma renderColumn_spec (i : nat) (d : Doc) (m : Q) (col : Column Element)
    (d1 : Doc) (m1 : Q) :
  renderColumn (renderInColumn B this) gap colWidth startY i (d, m) col
  = Ok (d1, m1) ->
  renderChildren (renderInColumn B this) colWidth col
                 (setXY (columnX d colWidth gap i) startY d) = Ok d1 /\
  m <= m1 /\ doc_y d1 <= m1 /\ (m1 = m \/ m1 = doc_y d1).
Proof.
  unfold renderColumn. intros H.
  apply bind_Ok_inv in H as (d2 & Hch & H). injection H as <- <-.
  split; [exact Hch | ].
  destruct (gtb (doc_y d2) m) eqn:Hgt.
  - apply gtb_true_lt in Hgt. repeat split; auto using Qlt_le_weak, Qle_refl.
  - apply gtb_false_le in Hgt. repeat split; auto using Qle_refl.
Qed.

Lemma columns_loop_rises (cols : list (Column Element)) :
  forall i d m d' m',
    forEachIdx (renderColumn (renderInColumn B this) gap colWidth startY)
               i cols (d, m) = Ok (d', m') ->
    m <= m'.
Proof.
  induction cols as [| c cols IH]; intros i d m d' m' H; simpl in H.
  - injection H as <- <-. apply Qle_refl.
  - apply bind_Ok_inv in H as ([d1 m1] & Hc & Hrest).
    apply renderColumn_spec in Hc as (_ & Hle & _).
    eapply Qle_trans; [exact Hle | eapply IH; exact Hrest].
Qed.

(** The final [maxY] is the initial one or the end of some column. *)
Lemma columns_loop_attained (cols : list (Column Element)) :
  forall i d m d' m',
    forEachIdx (renderColumn (renderInColumn B this) gap colWidth startY)
               i cols (d, m) = Ok (d', m') ->
    m' = m \/
    exists k col dk mk dk1 mk1,
      nth_error cols k = Some col /\
      forEachIdx (renderColumn (renderInColumn B this) gap colWidth startY) i
                 (firstn k cols) (d, m) = Ok (dk, mk) /\
      renderColumn (renderInColumn B this) gap colWidth startY (i + k)%nat
                   (dk, mk) col
      = Ok (dk1, mk1) /\
      m' = doc_y dk1.
Proof.
  induction cols as [| c cols IH]; intros i d m d' m' H; simpl in H.
  - injection H as <- <-. now left.
  - apply bind_Ok_inv in H as ([d1 m1] & Hc & Hrest).
    destruct (IH _ _ _ _ _ Hrest)
      as [-> | (k & col & dk & mk & dk1 & mk1 & Hk & Hpre & Hst & ->)].
    + destruct (renderColumn_spec _ _ _ _ _ _ Hc) as (_ & _ & _ & [-> | ->]).
      * now left.
      * right. exists 0%nat, c, d, m, d1, (doc_y d1).
        rewrite Nat.add_0_r. simpl. auto.
    + right. exists (S k), col, dk, mk, dk1, mk1.
      split; [exact Hk | ]. split; [simpl; rewrite Hc; exact Hpre | ].
      split; [ | reflexivity].
      now replace (i + S k)%nat with (S i + k)%nat by lia.
Qed.

End ColumnsFacts.

Section ColumnsTheorem.
Variable B : Backend.
Variable this : Engine.


End ColumnsTheorem.


(** Both rules are drawn at the vertical position at which the element
    began, and the cursor ends 100 points below it. *)
Example two_columns_end_at_the_taller :
  exists d',
    _renderElement Sample.backend Sample.engine Sample.a4 Sample.twoColumns = Ok d' /\
    doc_x d' = 50 /\ doc_y d' = doc_y Sample.a4 + 100 /\
    map (fun p => match p with
                  | PLine pg _ y1 _ _ _ _ => Some (pg, y1)
                  | _ => None
                  end) (out d')
    = [Some (0%nat, 50); Some (0%nat, 50)].
Proof.
  eexists. split; [vm_compute; reflexivity | ].
  split; [reflexivity | ]. split; [reflexivity | ].
  vm_compute. reflexivity.
Qed.

(* ------------------------------------------------------------------ *)
(** ** Defaults                                                         *)
(* ------------------------------------------------------------------ *)

Section Defaults.
Variable B : Backend.
Variable this : Engine.

(** Reading an attribute of a record that is written out. *)
Ltac proj :=
  unfold el_font, el_fontSize, el_color, el_underline, el_width;
  cbn [el_type el_style el_value el_url el_link el_align el_height el_strike
       el_oblique el_indent el_lineGap el_continued el_moveDown el_level
       el_stealth el_x el_y el_lines el_gap el_items el_ordered el_table
       el_src el_fit el_valign el_spacing el_thickness el_fill el_stroke
       el_lineWidth el_overlay st_font st_fontSize st_color st_underline
       st_width headers rows columnWidths headerFont bodyFont
       headerBackground headerColor alternateRowBackground cellPadding
       rowHeight gridLines gridColor opacity label labelColor labelSize
       lineColor nullishQ nullishB truthyB].

Ltac idem := proj; rewrite ?orQ_idem, ?orS_idem; try reflexivity.

Lemma renderText_defaults (doc : Doc) (a : Attrs) :
  _renderText B this doc (textDefaults this a) = _renderText B this doc a.
Proof.
  unfold _renderText, _applyFont, moveDownIfSet, _textOptions, textDefaults.
  idem.
Qed.

Lemma renderHeading_defaults (doc : Doc) (a : Attrs) :
  _renderHeading B this doc (headingDefaults a) = _renderHeading B this doc a.
Proof.
  unfold _renderHeading, _applyFont, _textOptions, headingDefaults, withFont,
    withStyle.
  idem.
Qed.

Lemma renderStealthLink_defaults (doc : Doc) (a : Attrs) :
  _renderStealthLink B this doc (stealthDefaults this a)
  = _renderStealthLink B this doc a.
Proof.
  unfold _renderStealthLink, moveDownIfSet, stealthOpts, stealthDefaults.
  idem.
Qed.

Lemma renderLink_defaults (doc : Doc) (a : Attrs) :
  _renderLink B this doc (linkDefaults this a) = _renderLink B this doc a.
Proof.
  unfold _renderLink, linkDefaults. proj.
  destruct (truthyB (el_stealth a)).
  - f_equal.
    unfold _renderStealthLink, moveDownIfSet, stealthOpts, withColorUnderline,
      withStyle.
    idem.
  - unfold moveDownIfSet, _textOptions. idem.
Qed.

Lemma renderList_defaults (doc : Doc) (a : Attrs) :
  _renderList B this doc (listDefaults this a) = _renderList B this doc a.
Proof.
  unfold _renderList, _applyFont, listDefaults. idem.
Qed.

Lemma tableLayout_defaults (doc : Doc) (a : Attrs) :
  tableLayout this doc (tableDefaults this doc a) = tableLayout this doc a.
Proof.
  unfold tableLayout, tableDefaults, defaultTable, tableHeaders. idem.
Qed.

Lemma renderTable_defaults (doc : Doc) (a : Attrs) :
  _renderTable B this doc (tableDefaults this doc a) = _renderTable B this doc a.
Proof.
  unfold _renderTable. rewrite tableLayout_defaults.
  change (tableHeaders (tableDefaults this doc a)) with (tableHeaders a).
  change (tableRows (tableDefaults this doc a)) with (tableRows a).
  destruct (headerRow B (tableLayout this doc a) (tableHeaders a)
                      (doc, doc_y doc)) as [st0 | e | ]; try reflexivity.
  cbn [bind].
  destruct (forEachIdx (bodyRow B (tableLayout this doc a)) 0 (tableRows a) st0)
    as [[d1 y1] | e | ]; try reflexivity.
  cbn [bind]. f_equal. unfold tableFinish, tableDefaults, defaultTable. proj.
  destruct (gridLines (el_table a)) as [[ | ] | ]; idem.
Qed.

Lemma renderDivider_defaults (doc : Doc) (a : Attrs) :
  _renderDivider doc (dividerDefaults doc a) = _renderDivider doc a.
Proof. unfold _renderDivider, dividerDefaults. idem. Qed.

Lemma renderSpacer_defaults (doc : Doc) (a : Attrs) :
  _renderSpacer B doc (spacerDefaults a) = _renderSpacer B doc a.
Proof. unfold _renderSpacer, spacerDefaults. idem. Qed.

Lemma renderColumns_defaults (f : Q -> Element -> Doc -> Outcome Doc)
    (doc : Doc) (a : Attrs) (cols : option (list (Column Element))) :
  _renderColumns f doc (columnsDefaults a) cols = _renderColumns f doc a cols.
Proof.
  unfold _renderColumns, renderColumnList, columnWidth, columnGap,
    columnsDefaults.
  idem.
Qed.

Lemma renderRect_defaults (doc : Doc) (a : Attrs) :
  _renderRect doc (rectDefaults a) = _renderRect doc a.
Proof.
  unfold _renderRect, withBox, rectBox, rectDefaults. idem.
Qed.

Lemma renderOverlay_defaults (doc : Doc) (a : Attrs) :
  _renderOverlay B doc (overlayDefaults a) = _renderOverlay B doc a.
Proof. unfold _renderOverlay, overlayDefaults. idem. Qed.

End Defaults.

Section DefaultsWrittenOut.
Variable B : Backend.
Variable this : Engine.

(** Rendering an element is rendering it with every default of its
    renderer written out. *)
Lemma defaults_written_out (doc : Doc) (a : Attrs)
    (cols : option (list (Column Element))) :
  _renderElement B this doc (El (withDefaults this doc a) cols)
  = _renderElement B this doc (El a cols).
Proof.
  unfold _renderElement, withDefaults.
  destruct (String.eqb_spec (el_type a) "text") as [E | _].
  { cbn [renderElementIn]. change (el_type (textDefaults this a)) with (el_type a).
    rewrite E. cbn. f_equal. apply renderText_defaults. }
  destruct (String.eqb_spec (el_type a) "heading") as [E | _].
  { cbn [renderElementIn]. change (el_type (headingDefaults a)) with (el_type a).
    rewrite E. cbn. f_equal. apply renderHeading_defaults. }
  destruct (String.eqb_spec (el_type a) "link") as [E | _].
  { cbn [renderElementIn]. change (el_type (linkDefaults this a)) with (el_type a).
    rewrite E. cbn. apply renderLink_defaults. }
  destruct (String.eqb_spec (el_type a) "list") as [E | _].
  { cbn [renderElementIn]. change (el_type (listDefaults this a)) with (el_type a).
    rewrite E. cbn. apply renderList_defaults. }
  destruct (String.eqb_spec (el_type a) "table") as [E | _].
  { cbn [renderElementIn].
    change (el_type (tableDefaults this doc a)) with (el_type a).
    rewrite E. cbn. apply renderTable_defaults. }
  destruct (String.eqb_spec (el_type a) "divider") as [E | _].
  { cbn [renderElementIn]. change (el_type (dividerDefaults doc a)) with (el_type a).
    rewrite E. cbn. f_equal. apply renderDivider_defaults. }
  destruct (String.eqb_spec (el_type a) "spacer") as [E | _].
  { cbn [renderElementIn]. change (el_type (spacerDefaults a)) with (el_type a).
    rewrite E. cbn. f_equal. apply renderSpacer_defaults. }
  destruct (String.eqb_spec (el_type a) "columns") as [E | _].
  { cbn [renderElementIn]. change (el_type (columnsDefaults a)) with (el_type a).
    rewrite E. cbn. apply renderColumns_defaults. }
  destruct (String.eqb_spec (el_type a) "rect") as [E | _].
  { cbn [renderElementIn]. change (el_type (rectDefaults a)) with (el_type a).
    rewrite E. cbn. apply renderRect_defaults. }
  destruct (String.eqb_spec (el_type a) "overlay") as [E | _].
  { cbn [renderElementIn]. change (el_type (overlayDefaults a)) with (el_type a).
    rewrite E. cbn. f_equal. apply renderOverlay_defaults. }
  destruct (String.eqb_spec (el_type a) "stealthLink") as [E | _].
  { cbn [renderElementIn]. change (el_type (stealthDefaults this a)) with (el_type a).
    rewrite E. cbn. f_equal. apply renderStealthLink_defaults. }
  reflexivity.
Qed.

End DefaultsWrittenOut.

(* ------------------------------------------------------------------ *)
(** ** Absent values                                                    *)
(* ------------------------------------------------------------------ *)

Section AbsentValues.
Variable B : Backend.
Variable this : Engine.
Variable readable : string -> bool.

(** [readable] singles out sources that the backend can open. *)
Hypothesis readable_opens :
  forall src o, readable src = true -> imageHeight B src o <> None.

(** *** Tables *)

(** Painting succeeds on every row that is an array or an object,
    whatever its cells hold. *)
Lemma paintRow_total (L : TableLayout) (ri : nat) (st : Doc * Q) (row : Row) :
  row <> RNull -> exists st', paintRow B L ri st row = Ok st'.
Proof.
  intros Hrow. destruct st as [doc y]. unfold paintRow.
  destruct row as [cells | fields | ]; [ | | contradiction]; cbn [rowCells bind].
  - destruct (cellLoop_total B L y cells 0 (rowBackground L ri doc y, tl_startX L))
      as (s' & Hs).
    unfold cellLoop in Hs. rewrite Hs. cbn [bind]. eauto.
  - destruct (cellLoop_total B L y (map snd fields) 0
                (rowBackground L ri doc y, tl_startX L)) as (s' & Hs).
    unfold cellLoop in Hs. rewrite Hs. cbn [bind]. eauto.
Qed.

Lemma header_loop_total (L : TableLayout) (y : Q) (hs : list string) :
  forall i st,
    (i + length hs <= length (tl_colWidths L))%nat ->
    exists st', forEachIdx (headerCell B L y) i hs st = Ok st'.
Proof.
  induction hs as [| h hs IH]; intros i [d x] Hlen; simpl in *.
  - eauto.
  - unfold headerCell at 1.
    destruct (nth_error (tl_colWidths L) i) as [w | ] eqn:Hw.
    + simpl. apply IH. lia.
    + apply nth_error_None in Hw. lia.
Qed.

Lemma headerRow_total (L : TableLayout) (hs : list string) (st : Doc * Q) :
  (length hs <= length (tl_colWidths L))%nat ->
  exists st', headerRow B L hs st = Ok st'.
Proof.
  intros Hlen. destruct st as [d y]. unfold headerRow.
  destruct hs as [| h hs]; [eauto | ].
  match goal with
  | |- context [forEachIdx ?f ?i ?l ?s] =>
      destruct (header_loop_total L y l i s Hlen) as (st' & ->)
  end.
  simpl. eauto.
Qed.

Lemma rows_loop_total (L : TableLayout) (rows : list Row) :
  (forall row, In row rows -> row <> RNull) ->
  forall i st, exists st', forEachIdx (bodyRow B L) i rows st = Ok st'.
Proof.
  intros Hrows. apply forEachIdx_total_in. intros i st row Hin.
  unfold bodyRow. apply paintRow_total. now apply Hrows.
Qed.

Lemma headerCovered_widths (doc : Doc) (el : Attrs) :
  headerCovered el = true ->
  (length (tableHeaders el) <= length (tl_colWidths (tableLayout this doc el)))%nat.
Proof.
  unfold headerCovered, tableLayout. simpl.
  destruct (columnWidths (el_table el)) as [ws | ].
  - intros H. now apply Nat.leb_le.
  - intros _. now rewrite autoColumnWidths_length.
Qed.

Lemma rows_not_null (rows : list Row) :
  forallb (fun r => negb (isNullRow r)) rows = true ->
  forall row, In row rows -> row <> RNull.
Proof.
  intros H row Hin ->. rewrite forallb_forall in H.
  specialize (H RNull Hin). discriminate H.
Qed.

(** A table whose rows are arrays or objects, and whose width list covers
    its header, renders to completion whatever its cells are. *)
Lemma renderTable_total (doc : Doc) (el : Attrs) :
  forallb (fun r => negb (isNullRow r)) (tableRows el) = true ->
  headerCovered el = true ->
  exists d', _renderTable B this doc el = Ok d'.
Proof.
  intros Hrows Hcov. unfold _renderTable.
  destruct (headerRow_total (tableLayout this doc el) (tableHeaders el)
              (doc, doc_y doc) (headerCovered_widths doc el Hcov)) as (st0 & ->).
  cbn [bind].
  destruct (rows_loop_total (tableLayout this doc el) _
              (rows_not_null _ Hrows) 0%nat st0) as (st1 & ->).
  cbn [bind]. eauto.
Qed.

(** *** The other renderers *)

Lemma renderList_total (doc : Doc) (el : Attrs) :
  forallb (fun i => negb (isNullItem i))
          (match el_items el with Some l => l | None => [] end) = true ->
  exists d', _renderList B this doc el = Ok d'.
Proof.
  intros Hitems. unfold _renderList.
  match goal with
  | |- context [forEachIdx ?f0 ?i0 ?l0 ?s0] =>
      destruct (forEachIdx_total_in f0 l0) with (i := i0) (s := s0) as (d1 & ->)
  end.
  - intros i d item Hin. rewrite forallb_forall in Hitems.
    specialize (Hitems item Hin).
    destruct item; simpl; [eauto | eauto | discriminate Hitems].
  - simpl. eauto.
Qed.

Lemma renderLink_total (doc : Doc) (el : Attrs) :
  exists d', _renderLink B this doc el = Ok d'.
Proof. unfold _renderLink. destruct (truthyB (el_stealth el)); eauto. Qed.

Lemma renderRect_total (doc : Doc) (el : Attrs) :
  rectOk el = true -> exists d', _renderRect doc el = Ok d'.
Proof.
  unfold rectOk, _renderRect, withBox, keepS.
  destruct (rectBox el) as [[[[x y] w] h] | ];
    destruct (truthyS (el_fill el)), (truthyS (el_stroke el)),
             (truthyS (el_link el));
    simpl; intros H; try discriminate H;
    try destruct (el_fill el); try destruct (el_stroke el);
    try destruct (el_link el); simpl; eauto.
Qed.

Lemma renderImage_total (doc : Doc) (el : Attrs) :
  match el_src el with Some src => readable src | None => false end = true ->
  exists d', _renderImage B doc el = Ok d'.
Proof.
  unfold _renderImage, image.
  destruct (el_src el) as [src | ]; [ | discriminate].
  intros Hr.
  match goal with
  | |- context [imageHeight B src ?o] =>
      pose proof (readable_opens src o Hr) as Hopen;
      destruct (imageHeight B src o) as [h | ]; [ | contradiction]
  end.
  destruct (el_x el), (el_y el); simpl; eauto.
Qed.

(** The width that [columns] injects keeps an element complete. *)
Lemma attrsComplete_withWidth (w : Q) (a : Attrs) :
  attrsComplete readable a = true ->
  attrsComplete readable (withWidth w a) = true.
Proof.
  unfold attrsComplete. intros H.
  apply andb_prop in H as (H & Hrect).
  change (el_type (withWidth w a)) with (el_type a).
  apply andb_true_intro. split; [exact H | ].
  destruct (String.eqb (el_type a) "rect"); [ | reflexivity].
  unfold rectOk, rectBox in *. simpl.
  destruct (truthyS (el_fill a) || truthyS (el_stroke a) || truthyS (el_link a));
    [ | reflexivity].
  simpl in *.
  destruct (el_x a), (el_y a), (el_width a), (el_height a);
    try discriminate Hrect; reflexivity.
Qed.

(** Every complete element renders to completion, whichever of its other
    attributes are absent. *)
Lemma complete_renders :
  forall el inject doc,
    complete readable el = true ->
    exists d', renderElementIn B this inject el doc = Ok d'.
Proof.
  induction el as [a columns IH] using Element_nested_ind.
  intros inject doc Hwf. cbn [complete] in Hwf.
  apply andb_prop in Hwf as (Ha & Hcols).
  cbn [renderElementIn].
  set (a' := match inject with Some w => withWidth w a | None => a end).
  assert (Ha' : attrsComplete readable a' = true)
    by (subst a'; destruct inject; [apply attrsComplete_withWidth | ]; exact Ha).
  clearbody a'. clear Ha. unfold attrsComplete in Ha'.
  apply andb_prop in Ha' as (Ha' & Hrect).
  apply andb_prop in Ha' as (Ha' & Himg). apply andb_prop in Ha' as (Hlist & Htab).
  destruct (String.eqb (el_type a') "text"); [eauto | ].
  destruct (String.eqb (el_type a') "heading"); [eauto | ].
  destruct (String.eqb (el_type a') "link"); [apply renderLink_total | ].
  destruct (String.eqb (el_type a') "list"); [now apply renderList_total | ].
  destruct (String.eqb (el_type a') "table").
  { apply andb_prop in Htab as (Hrows & Hcov). now apply renderTable_total. }
  destruct (String.eqb (el_type a') "image"); [now apply renderImage_total | ].
  destruct (String.eqb (el_type a') "divider"); [eauto | ].
  destruct (String.eqb (el_type a') "spacer"); [eauto | ].
  destruct (String.eqb (el_type a') "columns");
    [ | destruct (String.eqb (el_type a') "rect"); [now apply renderRect_total | ];
        repeat (match goal with
                | |- context [if ?b then _ else _] => destruct b
                end; eauto)].
  (* columns *)
  destruct columns as [cols | ]; [ | eexists; reflexivity].
  unfold _renderColumns, renderColumnList.
  match goal with
  | |- context [forEachIdx ?f0 ?i0 ?l0 ?s0] =>
      destruct (forEachIdx_total_in f0 l0) with (i := i0) (s := s0)
        as ([dN mN] & ->)
  end; [ | simpl; eauto].
  intros i [d m] col Hin.
  rewrite forallb_forall in Hcols. specialize (Hcols col Hin).
  rewrite Forall_forall in IH. specialize (IH col Hin). destruct IH as (IHe & IHc).
  unfold renderColumn, renderChildren.
  destruct (col_elements col) as [es | ].
  - match goal with
    | |- context [forEach ?f0 ?l0 ?s0] =>
        destruct (forEach_total_in f0 l0) with (s := s0) as (d1 & ->)
    end; [ | simpl; eauto].
    intros s child Hch.
    rewrite Forall_forall in IHe. apply IHe; [exact Hch | ].
    rewrite forallb_forall in Hcols. now apply Hcols.
  - destruct (col_content col) as [es | ]; [ | simpl; eauto].
    match goal with
    | |- context [forEach ?f0 ?l0 ?s0] =>
        destruct (forEach_total_in f0 l0) with (s := s0) as (d1 & ->)
    end; [ | simpl; eauto].
    intros s child Hch.
    rewrite Forall_forall in IHc. apply IHc; [exact Hch | ].
    rewrite forallb_forall in Hcols. now apply Hcols.
Qed.


End AbsentValues.


